(** * Business Analyst job-market dashboard: the load / filter / aggregate pipeline

    A shallow embedding of [app.py].  The script reads a CSV into a pandas
    DataFrame, cleans three columns, derives [avg_salary_k], filters the frame
    by three multiselect widgets and hands a fixed set of aggregations to the
    charts.

    Modelling conventions.
    - A DataFrame is a list of rows, in frame order; a column is the list of
      one field over the rows.  The index labels are not modelled.
    - A missing cell ([NaN]) of a text column is [None].
    - A Python [str] is a [string]; a character is a code point below 256,
      on which the regular expression class [\d] is exactly ['0'..'9'].
    - A float64 on which the script computes (a rating, a salary average) is
      a binary64 of the kernel ([PrimFloat.float]), with its rounding to
      nearest, ties to even.  A missing cell of such a column is [None] and a
      cell [Some f] holds a float that is not [NaN].
    - numpy adds floats by pairwise summation and, where it converts the
      elements first, through a buffer of 8192 elements; pandas computes a
      mean with numpy (the optional bottleneck package is not installed).
    - The integers of one salary text fit a 64-bit integer array of numpy.
    - A float cell that is only compared with a sentinel ([founded],
      [easy_apply]) is modelled by the rational it denotes ([Q]).
    - Python integers are unbounded: [Z]. *)

From Stdlib Require Import List String Ascii Bool Arith ZArith QArith Lia.
From Stdlib Require Import Permutation Sorted DecimalString DecimalNat.
From Stdlib Require Uint63 PrimFloat FloatOps.
Import ListNotations.

Local Open Scope string_scope.
Local Open Scope list_scope.

(** ** Regular expressions used by the loader *)

Module Re.

(** The newline character, [\n]. *)
Definition newline : ascii := ascii_of_nat 10.

Definition is_newline (c : ascii) : bool := Ascii.eqb c newline.

(** [\d] on a code point below 256. *)
Definition is_digit (c : ascii) : bool :=
  let n := nat_of_ascii c in (48 <=? n)%nat && (n <=? 57)%nat.

(** The greedy [.*]: [.] matches every character but the newline.  Returns
    the unmatched remainder. *)
Fixpoint skip_dot_star (s : string) : string :=
  match s with
  | EmptyString => EmptyString
  | String c t => if is_newline c then s else skip_dot_star t
  end.

(** [re.sub(r"\n.*", "", s)]: scan from the left; where the pattern matches,
    drop the match and resume after it, otherwise copy one character.  A
    match is never empty, so [length s] steps are enough. *)
Fixpoint sub_newline_rest_steps (steps : nat) (s : string) : string :=
  match steps with
  | O => EmptyString
  | S steps' =>
      match s with
      | EmptyString => EmptyString
      | String c t =>
          if is_newline c then sub_newline_rest_steps steps' (skip_dot_star t)
          else String c (sub_newline_rest_steps steps' t)
      end
  end.

Definition sub_newline_rest (s : string) : string :=
  sub_newline_rest_steps (String.length s) s.

(** The part of [s] before its first newline: what cleaning is meant to
    keep. *)
Fixpoint before_newline (s : string) : string :=
  match s with
  | EmptyString => EmptyString
  | String c t => if is_newline c then EmptyString else String c (before_newline t)
  end.

Fixpoint has_newline (s : string) : bool :=
  match s with
  | EmptyString => false
  | String c t => is_newline c || has_newline t
  end.

Fixpoint all_digits (s : string) : bool :=
  match s with
  | EmptyString => true
  | String c t => is_digit c && all_digits t
  end.

Fixpoint no_digit (s : string) : bool :=
  match s with
  | EmptyString => true
  | String c t => negb (is_digit c) && no_digit t
  end.

(** [s] does not begin with a digit. *)
Definition digit_free_head (s : string) : bool :=
  match s with
  | EmptyString => true
  | String c _ => negb (is_digit c)
  end.

(** [runs s rs]: [rs] lists the maximal runs of digits of [s] from left to
    right.  [s] is cut into a digit-free separator, a non-empty run of
    digits that the rest does not continue, and the rest. *)
Inductive runs : string -> list string -> Prop :=
| runs_none (sep : string) :
    no_digit sep = true -> runs sep []
| runs_next (sep r rest : string) (rs : list string) :
    no_digit sep = true ->
    r <> EmptyString -> all_digits r = true ->
    digit_free_head rest = true ->
    runs rest rs ->
    runs (sep ++ r ++ rest)%string (r :: rs).

(** The greedy [\d+] tried at the head of [s]: the matched digits and the
    remainder ([\d*], the caller checks that the match is not empty). *)
Fixpoint match_digits (s : string) : string * string :=
  match s with
  | EmptyString => (EmptyString, EmptyString)
  | String c t =>
      if is_digit c then
        let (m, rest) := match_digits t in (String c m, rest)
      else (EmptyString, s)
  end.

(** [re.findall(r"\d+", s)]: at each position try the pattern; on a match
    record it and resume after it, otherwise move one character on.  The
    scan consumes at least one character per step, so [length s] steps
    are enough. *)
Fixpoint findall_digits_steps (steps : nat) (s : string) : list string :=
  match steps with
  | O => []
  | S steps' =>
      match s with
      | EmptyString => []
      | String c t =>
          if is_digit c then
            let (m, rest) := match_digits s in
            m :: findall_digits_steps steps' rest
          else findall_digits_steps steps' t
      end
  end.

Definition findall_digits (s : string) : list string :=
  findall_digits_steps (String.length s) s.

End Re.

(** ** Python and numpy helpers *)

(** [int(n)] on a string of decimal digits. *)
Definition digit_value (c : ascii) : Z := Z.of_nat (nat_of_ascii c) - 48.

Fixpoint int_from (acc : Z) (s : string) : Z :=
  match s with
  | EmptyString => acc
  | String c t => int_from (10 * acc + digit_value c) t
  end.

Definition int (s : string) : Z := int_from 0 s.

(** [float(n)] for a natural number: the nearest binary64, ties to even.
    Below [2^63] the kernel converts; above, the 63 leading bits are
    converted, the lowest of them standing for all the bits dropped, and the
    result is scaled back. *)
Definition float64_of_nonneg (z : Z) : PrimFloat.float :=
  if (z <? 2 ^ 63)%Z then PrimFloat.of_uint63 (Uint63.of_Z z)
  else
    let k := (Z.log2 z - 62)%Z in
    let q := Z.shiftr z k in
    let m := if (Z.land z (Z.ones k) =? 0)%Z then q else Z.lor q 1 in
    FloatOps.Z.ldexp (PrimFloat.of_uint63 (Uint63.of_Z m)) k.

(** [float(n)] for an integer. *)
Definition float64_of_int (z : Z) : PrimFloat.float :=
  if (z <? 0)%Z then PrimFloat.opp (float64_of_nonneg (- z)) else float64_of_nonneg z.

(** A running sum: [for x in xs: acc += x]. *)
Definition sum_from (acc : PrimFloat.float) (xs : list PrimFloat.float) : PrimFloat.float :=
  fold_left PrimFloat.add xs acc.

(** The unrolled loop of numpy's pairwise summation: eight running sums
    [r], each taking one element of every full block of eight. *)
Fixpoint add_blocks (steps : nat) (r xs : list PrimFloat.float)
    : list PrimFloat.float * list PrimFloat.float :=
  match steps with
  | O => (r, xs)
  | S steps' =>
      if (8 <=? List.length xs)%nat
      then add_blocks steps'
             (map (fun p => PrimFloat.add (fst p) (snd p)) (combine r (firstn 8 xs)))
             (skipn 8 xs)
      else (r, xs)
  end.

(** [((r0 + r1) + (r2 + r3)) + ((r4 + r5) + (r6 + r7))] *)
Definition add_tree (r : list PrimFloat.float) : PrimFloat.float :=
  match r with
  | [r0; r1; r2; r3; r4; r5; r6; r7] =>
      PrimFloat.add
        (PrimFloat.add (PrimFloat.add r0 r1) (PrimFloat.add r2 r3))
        (PrimFloat.add (PrimFloat.add r4 r5) (PrimFloat.add r6 r7))
  | _ => PrimFloat.zero
  end.

(** From 8 to 128 elements: the eight sums over the full blocks, combined,
    then the elements left over added one by one. *)
Definition unrolled_sum (xs : list PrimFloat.float) : PrimFloat.float :=
  let (r, rest) := add_blocks (List.length xs) (firstn 8 xs) (skipn 8 xs) in
  sum_from (add_tree r) rest.

(** numpy's pairwise summation of [n] floats: a plain loop below 8, the
    unrolled loop up to 128, and beyond that the sum of the two halves, the
    first of a length that is a multiple of 8.  Each half is shorter, so
    [length xs] steps are enough. *)
Fixpoint pairwise_sum_steps (steps : nat) (xs : list PrimFloat.float) : PrimFloat.float :=
  match steps with
  | O => sum_from PrimFloat.zero xs
  | S steps' =>
      let n := List.length xs in
      if (n <? 8)%nat then sum_from PrimFloat.zero xs
      else if (n <=? 128)%nat then unrolled_sum xs
      else
        let n2 := (n / 2)%nat in
        let n2 := (n2 - n2 mod 8)%nat in
        PrimFloat.add (pairwise_sum_steps steps' (firstn n2 xs))
                      (pairwise_sum_steps steps' (skipn n2 xs))
  end.

Definition pairwise_sum (xs : list PrimFloat.float) : PrimFloat.float :=
  pairwise_sum_steps (List.length xs) xs.

(** [ndarray.sum()] on a float64 array: the pairwise sum added to the
    initial [0.]. *)
Definition np_sum (xs : list PrimFloat.float) : PrimFloat.float :=
  PrimFloat.add PrimFloat.zero (pairwise_sum xs).

(** The size of numpy's conversion buffer, 8192 elements. *)
Definition bufsize : nat := 64 * 128.

(** [ndarray.sum(dtype=float64)] on an integer array: the elements pass
    through the buffer, and the pairwise sum of each buffer is added to the
    running total.  [xs] is the array already converted. *)
Fixpoint np_sum_buffered_steps (steps : nat) (acc : PrimFloat.float)
    (xs : list PrimFloat.float) : PrimFloat.float :=
  match steps with
  | O => acc
  | S steps' =>
      match xs with
      | [] => acc
      | _ :: _ =>
          np_sum_buffered_steps steps'
            (PrimFloat.add acc (pairwise_sum (firstn bufsize xs))) (skipn bufsize xs)
      end
  end.

Definition np_sum_buffered (xs : list PrimFloat.float) : PrimFloat.float :=
  np_sum_buffered_steps (List.length xs) PrimFloat.zero xs.

(** [np.mean] of a non-empty list of integers: the float64 sum of the
    converted integers divided by their number. *)
Definition np_mean (nums : list Z) : PrimFloat.float :=
  PrimFloat.div (np_sum_buffered (map float64_of_int nums))
                (float64_of_int (Z.of_nat (List.length nums))).

(** [parse_salary], the local function of [load_data].  The mean of
    natural numbers is never [NaN]. *)
Definition parse_salary (s : option string) : option PrimFloat.float :=
  match s with
  | None => None
  | Some s =>
      let nums := Re.findall_digits s in
      let nums := map int nums in
      match nums with
      | [] => None
      | _ :: _ => Some (np_mean nums)
      end
  end.

(** ** The data model *)

(** A cell of a column whose type pandas infers from the file: missing, a
    boolean, an integer, a float or text. *)
Inductive value : Type :=
| VNaN
| VBool (b : bool)
| VInt (z : Z)
| VFloat (q : Q)
| VStr (s : string).

Definition is_bool (v : value) : bool :=
  match v with VBool _ => true | _ => false end.

(** [Series.replace(-1, new)]: the cells that compare equal to the integer
    [-1] are replaced, every other cell is kept as it is.  A float [-1.0]
    equals [-1]; a boolean is [0] or [1] and a text cell equals no number. *)
Definition replace_minus_one (new : value) (v : value) : value :=
  match v with
  | VInt z => if (z =? -1)%Z then new else v
  | VFloat q => if Qeq_bool q (inject_Z (-1)) then new else v
  | _ => v
  end.

(** A row of the frame returned by [pd.read_csv], headers already stripped
    and lowercased. *)
Record raw_row : Type := mk_raw_row {
  raw_job_title : option string;
  raw_company_name : option string;
  raw_location : option string;
  raw_industry : option string;
  raw_sector : option string;
  raw_type_of_ownership : option string;
  raw_founded : value;
  raw_easy_apply : value;
  raw_salary_estimate : option string;
  raw_rating : option PrimFloat.float
}.

(** A row of the frame returned by [load_data]. *)
Record row : Type := mk_row {
  job_title : option string;
  company_name : option string;
  location : option string;
  industry : option string;
  sector : option string;
  type_of_ownership : option string;
  founded : value;
  easy_apply : value;
  salary_estimate : option string;
  rating : option PrimFloat.float;
  avg_salary_k : option PrimFloat.float
}.

Definition DataFrame : Type := list row.

(** [Series.str.replace(r"\n.*", "", regex=True)]: missing cells stay
    missing. *)
Definition clean_company_name (c : option string) : option string :=
  option_map Re.sub_newline_rest c.

Definition load_row (r : raw_row) : row :=
  {| job_title := raw_job_title r;
     company_name := clean_company_name (raw_company_name r);
     location := raw_location r;
     industry := raw_industry r;
     sector := raw_sector r;
     type_of_ownership := raw_type_of_ownership r;
     founded := replace_minus_one VNaN (raw_founded r);
     easy_apply := replace_minus_one (VBool false) (raw_easy_apply r);
     salary_estimate := raw_salary_estimate r;
     rating := raw_rating r;
     avg_salary_k := parse_salary (raw_salary_estimate r) |}.

Definition load_data (csv : list raw_row) : DataFrame := map load_row csv.

(** ** The sidebar filters *)

(** The three [st.sidebar.multiselect] results: lists of option labels.  The
    options offered are the non-missing values of the column, so a selection
    holds text only. *)
Module Sidebar.
Record selection : Type := mk_selection {
  location : list string;
  industry : list string;
  ownership : list string
}.

(** Nothing selected in any widget. *)
Definition none : selection :=
  {| location := []; industry := []; ownership := [] |}.
End Sidebar.

(** Truth value of a Python list: true when it is not empty. *)
Definition truthy {A : Type} (l : list A) : bool :=
  match l with [] => false | _ :: _ => true end.

(** [Series.isin(values)] on one cell: a missing cell is in no list of
    text values. *)
Definition isin (values : list string) (cell : option string) : bool :=
  match cell with
  | Some s => existsb (String.eqb s) values
  | None => false
  end.

(** The frame [filtered_df] after the three [if] statements. *)
Definition filtered_df (df : DataFrame) (w : Sidebar.selection) : DataFrame :=
  let filtered_df := df in
  let filtered_df :=
    if truthy (Sidebar.location w)
    then filter (fun r => isin (Sidebar.location w) (location r)) filtered_df
    else filtered_df in
  let filtered_df :=
    if truthy (Sidebar.industry w)
    then filter (fun r => isin (Sidebar.industry w) (industry r)) filtered_df
    else filtered_df in
  let filtered_df :=
    if truthy (Sidebar.ownership w)
    then filter (fun r => isin (Sidebar.ownership w) (type_of_ownership r)) filtered_df
    else filtered_df in
  filtered_df.

(** ** Counting *)

(** Equality of cells as keys.  Missing cells never reach a hash table of
    [value_counts] or [nunique]; the pie chart keeps them as one label. *)
Definition option_eqb {A : Type} (eqb : A -> A -> bool) (a b : option A) : bool :=
  match a, b with
  | Some x, Some y => eqb x y
  | None, None => true
  | _, _ => false
  end.

(** Python [==] on cells of an inferred column: numbers compare by value
    across [bool], [int] and [float], text compares with text. *)
Definition value_num (v : value) : option Q :=
  match v with
  | VBool b => Some (inject_Z (Z.b2z b))
  | VInt z => Some (inject_Z z)
  | VFloat q => Some q
  | _ => None
  end.

Definition value_eqb (a b : value) : bool :=
  match a, b with
  | VStr s, VStr t => String.eqb s t
  | _, _ =>
      match value_num a, value_num b with
      | Some x, Some y => Qeq_bool x y
      | _, _ => false
      end
  end.

(** A cell of an inferred column as an optional key. *)
Definition value_cell (v : value) : option value :=
  match v with VNaN => None | _ => Some v end.

Definition notna {A : Type} (cell : option A) : bool :=
  match cell with Some _ => true | None => false end.

(** [Series.dropna()] as the list of the values present. *)
Fixpoint dropna {A : Type} (col : list (option A)) : list A :=
  match col with
  | [] => []
  | Some x :: t => x :: dropna t
  | None :: t => dropna t
  end.

Section Counts.
Context {K : Type} (eqb : K -> K -> bool).

(** One more occurrence of [k] in a table of counts that keeps its keys in
    the order of their first occurrence. *)
Fixpoint incr (k : K) (counts : list (K * nat)) : list (K * nat) :=
  match counts with
  | [] => [(k, 1%nat)]
  | (k', n) :: rest =>
      if eqb k k' then (k', S n) :: rest else (k', n) :: incr k rest
  end.

(** The hash table pandas builds over a column: each distinct key with its
    number of occurrences, keys in the order of first occurrence. *)
Definition group_counts (col : list K) : list (K * nat) :=
  fold_left (fun counts k => incr k counts) col [].
End Counts.

(** [Series.nunique()]: the number of distinct values present. *)
Definition nunique {K : Type} (eqb : K -> K -> bool) (col : list (option K)) : nat :=
  List.length (group_counts eqb (dropna col)).

(** A float as a cell: [NaN] is the missing cell. *)
Definition float_cell (f : PrimFloat.float) : option PrimFloat.float :=
  if PrimFloat.is_nan f then None else Some f.

(** What pandas puts in place of a missing cell before it sums. *)
Definition fillna0 (cell : option PrimFloat.float) : PrimFloat.float :=
  match cell with
  | Some x => x
  | None => PrimFloat.zero
  end.

(** [Series.mean()] on a float64 column: the sum of the column, its missing
    cells counted as [0.], divided by the number of cells present; [NaN]
    when no cell is present. *)
Definition mean (col : list (option PrimFloat.float)) : option PrimFloat.float :=
  match List.length (dropna col) with
  | O => None
  | S count' =>
      float_cell (PrimFloat.div (np_sum (map fillna0 col))
                                (float64_of_int (Z.of_nat (S count'))))
  end.

(** [2^52], from which on every binary64 is an integer. *)
Definition two52 : PrimFloat.float := float64_of_int (2 ^ 52).

(** [rint]: the nearest integer, ties to the even one, with the sign of
    the argument. *)
Definition rint (x : PrimFloat.float) : PrimFloat.float :=
  if PrimFloat.ltb (PrimFloat.abs x) two52 then
    if PrimFloat.get_sign x
    then PrimFloat.opp (PrimFloat.sub (PrimFloat.add (PrimFloat.opp x) two52) two52)
    else PrimFloat.sub (PrimFloat.add x two52) two52
  else x.

(** [round(x, ndigits)] on a numpy float64 with [ndigits >= 0]: scale by
    [10**ndigits], round to an integer, scale back.  [NaN] stays [NaN]. *)
Definition round (x : option PrimFloat.float) (ndigits : nat) : option PrimFloat.float :=
  match x with
  | None => None
  | Some x =>
      let scale := float64_of_int (10 ^ Z.of_nat ndigits) in
      Some (PrimFloat.div (rint (PrimFloat.mul x scale)) scale)
  end.

(** [px.pie(frame, names=col)]: one slice per distinct label, each row
    weighing one; a missing label is a label like any other (drawn as
    [null]).  The slices are given in the order of first occurrence; the
    order in which the chart draws them is not modelled. *)
Definition px_pie (names : list (option string)) : list (option string * nat) :=
  group_counts (option_eqb String.eqb) names.

(** ** The dashboard *)

Section Dashboard.

(** [Series.sort_values(ascending=False)] on a table of counts.  pandas
    delegates to numpy's default sort, which does not promise an order
    among equal counts, so the dashboard takes the sort as a parameter. *)
Variable sort_values : forall K : Type, list (K * nat) -> list (K * nat).

(** [Series.value_counts()]: missing cells dropped, the distinct values
    counted, the counts sorted in descending order. *)
Definition value_counts {K : Type} (eqb : K -> K -> bool)
    (col : list (option K)) : list (option K * nat) :=
  sort_values _ (group_counts (option_eqb eqb) (filter notna col)).

(** [.head(n)] *)
Definition head {A : Type} (n : nat) (l : list A) : list A := firstn n l.

(** The four [st.metric] values. *)
Definition total_jobs (fdf : DataFrame) : nat := List.length fdf.

Definition companies (fdf : DataFrame) : nat :=
  nunique String.eqb (map company_name fdf).

Definition locations (fdf : DataFrame) : nat :=
  nunique String.eqb (map location fdf).

Definition avg_rating (fdf : DataFrame) : option PrimFloat.float :=
  round (mean (map rating fdf)) 2.

(** The frames and figures behind the charts. *)
Definition loc_df (fdf : DataFrame) : list (option string * nat) :=
  value_counts String.eqb (map location fdf).

Definition comp_df (fdf : DataFrame) : list (option string * nat) :=
  head 10 (value_counts String.eqb (map company_name fdf)).

Definition title_df (fdf : DataFrame) : list (option string * nat) :=
  head 10 (value_counts String.eqb (map job_title fdf)).

Definition fig_ind (fdf : DataFrame) : list (option string * nat) :=
  px_pie (map industry fdf).

Definition fig_sec (fdf : DataFrame) : list (option string * nat) :=
  px_pie (map sector fdf).

(** [filtered_df.dropna(subset=["avg_salary_k"])] *)
Definition salary_df (fdf : DataFrame) : DataFrame :=
  filter (fun r => notna (avg_salary_k r)) fdf.

(** The [x] values of the salary histogram. *)
Definition fig_salary (fdf : DataFrame) : list PrimFloat.float :=
  dropna (map avg_salary_k (salary_df fdf)).

Definition easy_df (fdf : DataFrame) : list (option value * nat) :=
  value_counts value_eqb (map (fun r => value_cell (easy_apply r)) fdf).

(** Everything one run of the script shows for a filtered frame. *)
Record page : Type := mk_page {
  metric_total_jobs : nat;
  metric_companies : nat;
  metric_locations : nat;
  metric_avg_rating : option PrimFloat.float;
  chart_loc : list (option string * nat);
  chart_comp : list (option string * nat);
  chart_title : list (option string * nat);
  chart_ind : list (option string * nat);
  chart_sec : list (option string * nat);
  chart_salary : list PrimFloat.float;
  chart_easy : list (option value * nat)
}.

Definition render (fdf : DataFrame) : page :=
  {| metric_total_jobs := total_jobs fdf;
     metric_companies := companies fdf;
     metric_locations := locations fdf;
     metric_avg_rating := avg_rating fdf;
     chart_loc := loc_df fdf;
     chart_comp := comp_df fdf;
     chart_title := title_df fdf;
     chart_ind := fig_ind fdf;
     chart_sec := fig_sec fdf;
     chart_salary := fig_salary fdf;
     chart_easy := easy_df fdf |}.

End Dashboard.

(** A sort of counts in descending order that keeps equal counts in their
    incoming order: what numpy's default sort does on the short arrays it
    sorts by insertion, and what pandas' descending wrapper preserves. *)
Fixpoint insert_desc {K : Type} (x : K * nat) (l : list (K * nat)) : list (K * nat) :=
  match l with
  | [] => [x]
  | y :: t => if (snd y <=? snd x)%nat then x :: y :: t else y :: insert_desc x t
  end.

Definition stable_sort_desc (K : Type) (l : list (K * nat)) : list (K * nat) :=
  fold_right insert_desc [] l.

(** ** Column names *)









(** ** The options of the sidebar *)

(** [Series.unique()]: the distinct values in the order of their first
    occurrence. *)
Definition unique {K : Type} (eqb : K -> K -> bool) (col : list K) : list K :=
  fold_left (fun seen k => if existsb (eqb k) seen then seen else seen ++ [k]) col [].

(** [sorted] on a list of text: ascending by code points.  The order is
    total, so the result does not depend on the sorting method; it is
    computed here by insertion. *)
Fixpoint insert_sorted (x : string) (l : list string) : list string :=
  match l with
  | [] => [x]
  | y :: t => if String.leb x y then x :: l else y :: insert_sorted x t
  end.

Definition sorted (l : list string) : list string := fold_right insert_sorted [] l.

(** [sorted(df[col].dropna().unique())]: what a multiselect offers. *)
Definition options (col : list (option string)) : list string :=
  sorted (unique String.eqb (dropna col)).

(** ** Vocabulary of the properties *)

(** [Sublist l1 l2]: [l1] is [l2] with some elements left out, the others
    unchanged and in the same order. *)
Inductive Sublist {A : Type} : list A -> list A -> Prop :=
| Sublist_nil : Sublist [] []
| Sublist_keep (x : A) (l1 l2 : list A) : Sublist l1 l2 -> Sublist (x :: l1) (x :: l2)
| Sublist_drop (x : A) (l1 l2 : list A) : Sublist l1 l2 -> Sublist l1 (x :: l2).

(** The constraint of one facet on one cell: nothing selected constrains
    nothing, otherwise the cell must be one of the selected values. *)
Definition facet_ok (selected : list string) (cell : option string) : bool :=
  negb (truthy selected) || isin selected cell.

(** The three facet constraints together. *)
Definition facets_ok (w : Sidebar.selection) (r : row) : bool :=
  facet_ok (Sidebar.location w) (location r)
  && facet_ok (Sidebar.industry w) (industry r)
  && facet_ok (Sidebar.ownership w) (type_of_ownership r).

(** The number of cells of a column equal to [k]. *)
Definition occurrences {K : Type} (eqb : K -> K -> bool) (k : K) (col : list K) : nat :=
  List.length (filter (eqb k) col).

(** The count a table holds for [k], [0] when [k] is not a key. *)
Fixpoint count_of {K : Type} (eqb : K -> K -> bool) (k : K) (counts : list (K * nat)) : nat :=
  match counts with
  | [] => O
  | (k', n) :: rest => if eqb k k' then n else count_of eqb k rest
  end.

(** The sum of the counts of a table. *)
Definition total {K : Type} (counts : list (K * nat)) : nat :=
  fold_right (fun p acc => (snd p + acc)%nat) O counts.

(** Descending counts. *)
Definition count_desc {K : Type} (a b : K * nat) : Prop := (snd b <= snd a)%nat.

(** Descending counts, equal counts in ascending order of their labels: the
    order the specification asks of the top-10 tables. *)
Definition label_le (a b : option string) : Prop :=
  match a, b with
  | Some x, Some y => String.leb x y = true
  | None, _ => True
  | Some _, None => False
  end.

Definition count_desc_label_asc (a b : option string * nat) : Prop :=
  (snd b < snd a)%nat \/ (snd a = snd b /\ label_le (fst a) (fst b)).

(** [top10_of col top]: [top] is a table of the ten most frequent values
    of [col] (all of them when there are fewer): at most ten entries, counts
    in descending order, one entry per value, each with the number of cells
    holding the value, and no value left out occurs more often than a
    value listed.  Nothing is said of the order of equal counts. *)
Definition top10_of (col : list (option string)) (top : list (option string * nat)) : Prop :=
  (List.length top <= 10)%nat
  /\ StronglySorted count_desc top
  /\ NoDup (map fst top)
  /\ (forall k n, In (k, n) top ->
        exists s, k = Some s
                  /\ n = occurrences (option_eqb String.eqb) (Some s) col
                  /\ (0 < n)%nat)
  /\ (forall s, In (Some s) col -> ~ In (Some s) (map fst top) ->
        List.length top = 10%nat
        /\ forall p, In p top ->
             (occurrences (option_eqb String.eqb) (Some s) col <= snd p)%nat).

(** [breakdown_of col slices]: [slices] groups the cells of [col] by value,
    the missing value included: one slice per distinct cell, with the number
    of cells equal to it; the slices cover every row; when some cell is
    missing, the missing value has its own slice. *)
Definition breakdown_of (col : list (option string)) (slices : list (option string * nat)) : Prop :=
  (forall v n, In (v, n) slices <->
               n = occurrences (option_eqb String.eqb) v col /\ In v col)
  /\ NoDup (map fst slices)
  /\ total slices = List.length col
  /\ (In None col ->
      In (None, occurrences (option_eqb String.eqb) None col) slices
      /\ (0 < occurrences (option_eqb String.eqb) None col)%nat).

(** The page of a frame without rows. *)
Definition empty_page : page :=
  mk_page 0 0 0 None [] [] [] [] [] [] [].

(** A raw [easy_apply] cell the loader turns into a boolean: a boolean or
    the sentinel [-1]. *)
Definition bool_or_sentinel (v : value) : bool :=
  match v with
  | VBool _ => true
  | VInt z => (z =? -1)%Z
  | VFloat q => Qeq_bool q (inject_Z (-1))
  | _ => false
  end.

(** The boolean a boolean cell holds. *)
Definition as_bool (v : value) : bool :=
  match v with VBool b => b | _ => false end.

(** The text holds a digit. *)
Definition has_digit (cell : option string) : bool :=
  match cell with
  | Some s => negb (Re.no_digit s)
  | None => false
  end.

(** [widens a b]: the selection [b] of a facet allows every cell that the
    selection [a] allows: [b] is empty (no constraint), or [a] is a non-empty
    part of [b]. *)
Definition widens (a b : list string) : Prop :=
  b = [] \/ (a <> [] /\ incl a b).

(** ** Sample data *)

(** The three rows of the end-to-end example of the specification. *)
Definition sample_csv : list raw_row :=
  [ mk_raw_row (Some "Analyst") (Some ("A" ++ String Re.newline "4.0")%string) (Some "NY")
      (Some "Finance") (Some "Finance") (Some "Private") VNaN (VInt (-1))
      (Some "$50K-$70K") (Some (float64_of_int 4));
    mk_raw_row (Some "Analyst") (Some "B") (Some "NY")
      None None None VNaN (VBool true) (Some "$90K") None;
    mk_raw_row (Some "Analyst") (Some ("A" ++ String Re.newline "4.0")%string) (Some "LA")
      (Some "Tech") (Some "IT") (Some "Public") VNaN (VInt (-1)) None (Some (float64_of_int 4)) ].

Definition sample_df : DataFrame := load_data sample_csv.

Definition select_NY : Sidebar.selection := Sidebar.mk_selection ["NY"] [] [].

(** A selection that no row of [sample_df] meets. *)
Definition select_NY_Retail : Sidebar.selection :=
  Sidebar.mk_selection ["NY"] ["Retail"] [].




(** A row that only names a company. *)
Definition company_row (name : string) : row :=
  mk_row None (Some name) None None None None VNaN VNaN None None None.

(** * Properties *)

(** ** The regular expressions *)

Lemma sub_newline_rest_steps_at_newline (n : nat) (s : string) :
  s = EmptyString \/ (exists t, s = String Re.newline t) ->
  Re.sub_newline_rest_steps n s = EmptyString.
Proof.
  revert s. induction n as [|n IH]; intros s Hs; simpl; [reflexivity|].
  destruct Hs as [-> | [t ->]]; [reflexivity|].
  unfold Re.is_newline. rewrite Ascii.eqb_refl.
  apply IH. clear. induction t as [|c t IHt]; simpl; [now left|].
  destruct (Re.is_newline c) eqn:E; [|exact IHt].
  right. exists t. unfold Re.is_newline in E. apply Ascii.eqb_eq in E. now subst.
Qed.

Lemma skip_dot_star_at_newline (t : string) :
  Re.skip_dot_star t = EmptyString \/ exists u, Re.skip_dot_star t = String Re.newline u.
Proof.
  induction t as [|c t IHt]; simpl; [now left|].
  destruct (Re.is_newline c) eqn:E; [|exact IHt].
  right. exists t. unfold Re.is_newline in E. apply Ascii.eqb_eq in E. now subst.
Qed.

Lemma sub_newline_rest_steps_before (n : nat) (s : string) :
  (String.length s <= n)%nat ->
  Re.sub_newline_rest_steps n s = Re.before_newline s.
Proof.
  revert s. induction n as [|n IH]; intros [|c t] Hlen; simpl in *; try reflexivity; try lia.
  destruct (Re.is_newline c).
  - apply sub_newline_rest_steps_at_newline, skip_dot_star_at_newline.
  - f_equal. apply IH. lia.
Qed.

Lemma sub_newline_rest_before (s : string) :
  Re.sub_newline_rest s = Re.before_newline s.
Proof. apply sub_newline_rest_steps_before. lia. Qed.

Lemma before_newline_split (s : string) :
  exists rest, s = (Re.before_newline s ++ rest)%string
               /\ (rest = EmptyString \/ exists t, rest = String Re.newline t).
Proof.
  induction s as [|c t (rest & Heq & Hrest)]; simpl.
  - exists EmptyString. split; [reflexivity | now left].
  - destruct (Re.is_newline c) eqn:E.
    + exists (String c t). split; [reflexivity|]. right. exists t.
      unfold Re.is_newline in E. apply Ascii.eqb_eq in E. now subst.
    + exists rest. split; [simpl; now rewrite <- Heq | exact Hrest].
Qed.

Lemma before_newline_clean (s : string) :
  Re.has_newline (Re.before_newline s) = false.
Proof.
  induction s as [|c t IH]; simpl; [reflexivity|].
  destruct (Re.is_newline c) eqn:E; simpl; [reflexivity|]. now rewrite E.
Qed.

Lemma before_newline_id (s : string) :
  Re.has_newline s = false -> Re.before_newline s = s.
Proof.
  induction s as [|c t IH]; simpl; [reflexivity|].
  intros H. apply orb_false_iff in H as [Hc Ht]. rewrite Hc. f_equal. now apply IH.
Qed.

Lemma is_newline_iff (c : ascii) :
  Re.is_newline c = true <-> c = "010"%char.
Proof. unfold Re.is_newline. rewrite Ascii.eqb_eq. reflexivity. Qed.

Lemma has_newline_chars (s : string) :
  Re.has_newline s = false <->
  forall c, In c (list_ascii_of_string s) -> c <> "010"%char.
Proof.
  induction s as [|d t IH]; simpl.
  - split; [intros _ c [] | reflexivity].
  - rewrite orb_false_iff, IH. split.
    + intros [Hd Ht] c [<- | Hc]; [|now apply Ht].
      intros E. apply is_newline_iff in E. congruence.
    + intros H. split; [|intros c Hc; apply H; now right].
      destruct (Re.is_newline d) eqn:E; [|reflexivity].
      apply is_newline_iff in E. exfalso. apply (H d); [now left | exact E].
Qed.

Lemma before_newline_suffix (name suffix : string) :
  Re.has_newline name = false ->
  Re.before_newline (name ++ String "010"%char suffix) = name.
Proof.
  induction name as [|c t IH]; simpl.
  - intros _. reflexivity.
  - intros H. apply orb_false_iff in H as [Hc Ht]. rewrite Hc. f_equal. now apply IH.
Qed.

(** C5.  Cleaning a company name truncates it at its first line feed
    (the character of code 10): the name is the cleaned text followed by
    nothing or by a rest that starts with a line feed, and no character of
    the cleaned text is a line feed; so a name without a line feed,
    followed by a line feed and anything, cleans to that name, and a name
    without a line feed is unchanged.  A missing name stays missing. *)
Theorem clean_company_name_truncates :
  clean_company_name None = None
  /\ (forall s : string,
        exists kept rest : string,
          clean_company_name (Some s) = Some kept
          /\ s = (kept ++ rest)%string
          /\ (rest = EmptyString \/ exists t, rest = String "010"%char t)
          /\ (forall c, In c (list_ascii_of_string kept) -> c <> "010"%char))
  /\ (forall name suffix : string,
        (forall c, In c (list_ascii_of_string name) -> c <> "010"%char) ->
        clean_company_name (Some (name ++ String "010"%char suffix)%string) = Some name)
  /\ (forall s : string,
        (forall c, In c (list_ascii_of_string s) -> c <> "010"%char) ->
        clean_company_name (Some s) = Some s).
Proof.
  split; [reflexivity|]. split; [|split].
  - intros s. destruct (before_newline_split s) as (rest & Heq & Hrest).
    exists (Re.before_newline s), rest. split; [|split; [|split]].
    + simpl. now rewrite sub_newline_rest_before.
    + exact Heq.
    + exact Hrest.
    + apply has_newline_chars, before_newline_clean.
  - intros name suffix Hname. simpl. rewrite sub_newline_rest_before. f_equal.
    apply before_newline_suffix, has_newline_chars, Hname.
  - intros s Hs. simpl. rewrite sub_newline_rest_before. f_equal.
    apply before_newline_id, has_newline_chars, Hs.
Qed.

Lemma match_digits_spec (s : string) :
  s = (fst (Re.match_digits s) ++ snd (Re.match_digits s))%string
  /\ Re.all_digits (fst (Re.match_digits s)) = true
  /\ Re.digit_free_head (snd (Re.match_digits s)) = true
  /\ (String.length (snd (Re.match_digits s)) <= String.length s)%nat.
Proof.
  induction s as [|c t (Heq & Hall & Hhead & Hlen)]; simpl.
  - repeat split; lia.
  - destruct (Re.is_digit c) eqn:E.
    + destruct (Re.match_digits t) as [m rest]; simpl in *.
      rewrite E, Hall. repeat split; try congruence; lia.
    + simpl. rewrite E. repeat split; lia.
Qed.


Lemma findall_digits_steps_enough (n m : nat) (s : string) :
  (String.length s <= n)%nat -> (String.length s <= m)%nat ->
  Re.findall_digits_steps n s = Re.findall_digits_steps m s.
Proof.
  revert m s. induction n as [|n IH]; intros [|m] [|c t] Hn Hm;
    simpl in *; try reflexivity; try lia.
  destruct (Re.is_digit c).
  - pose proof (match_digits_spec t) as (_ & _ & _ & Hlen).
    destruct (Re.match_digits t) as [mt rest]; simpl in *.
    f_equal. apply IH; lia.
  - apply IH; lia.
Qed.

Lemma findall_digits_skip (c : ascii) (t : string) :
  Re.is_digit c = false ->
  Re.findall_digits (String c t) = Re.findall_digits t.
Proof.
  intros Hc. unfold Re.findall_digits. simpl. now rewrite Hc.
Qed.

Lemma findall_digits_match (c : ascii) (t : string) :
  Re.is_digit c = true ->
  Re.findall_digits (String c t) =
  fst (Re.match_digits (String c t)) :: Re.findall_digits (snd (Re.match_digits (String c t))).
Proof.
  intros Hc. unfold Re.findall_digits. simpl. rewrite Hc.
  pose proof (match_digits_spec t) as (_ & _ & _ & Hlen).
  destruct (Re.match_digits t) as [m rest]; simpl in *.
  f_equal. apply findall_digits_steps_enough; lia.
Qed.

Lemma findall_digits_separator (sep x : string) :
  Re.no_digit sep = true ->
  Re.findall_digits (sep ++ x) = Re.findall_digits x.
Proof.
  intros Hsep. induction sep as [|c sep IH]; simpl in *; [reflexivity|].
  apply andb_true_iff in Hsep as [Hc Hsep]. apply negb_true_iff in Hc.
  rewrite findall_digits_skip by exact Hc. now apply IH.
Qed.

Lemma runs_skip (c : ascii) (t : string) (rs : list string) :
  Re.is_digit c = false -> Re.runs t rs -> Re.runs (String c t) rs.
Proof.
  intros Hc Hruns. destruct Hruns as [sep Hsep | sep r rest rs Hsep Hne Hr Hrest Hruns].
  - apply Re.runs_none. simpl. now rewrite Hc.
  - change (Re.runs (String c sep ++ r ++ rest) (r :: rs)).
    apply Re.runs_next; trivial. simpl. now rewrite Hc.
Qed.

Lemma findall_digits_runs (s : string) : Re.runs s (Re.findall_digits s).
Proof.
  remember (String.length s) as n eqn:Hn.
  assert (Hle : (String.length s <= n)%nat) by lia. clear Hn.
  revert s Hle. induction n as [|n IH]; intros [|c t] Hle; simpl in Hle; try lia;
    try (apply Re.runs_none; reflexivity).
  destruct (Re.is_digit c) eqn:Hc.
  - rewrite findall_digits_match by exact Hc.
    pose proof (match_digits_spec (String c t)) as (Heq & Hall & Hhead & Hlen).
    simpl in Heq, Hall, Hhead, Hlen |- *. rewrite Hc in *.
    pose proof (match_digits_spec t) as (_ & _ & _ & Hlen').
    destruct (Re.match_digits t) as [m rest]; simpl in *.
    rewrite Heq at 1.
    change (Re.runs (EmptyString ++ String c m ++ rest) (String c m :: Re.findall_digits rest)).
    apply Re.runs_next; trivial; try discriminate.
    apply IH. lia.
  - rewrite findall_digits_skip by exact Hc. apply runs_skip; [exact Hc|].
    apply IH. lia.
Qed.


(** ** Salary parsing *)


Lemma runs_all_digits (s : string) (rs : list string) :
  Re.runs s rs -> Forall (fun r => Re.all_digits r = true /\ r <> EmptyString) rs.
Proof. induction 1; constructor; auto. Qed.

Lemma int_from_of_uint (d : Decimal.uint) (acc : nat) :
  int_from (Z.of_nat acc) (NilEmpty.string_of_uint d) = Z.of_nat (Nat.of_uint_acc d acc).
Proof.
  revert acc. induction d as [|d IH|d IH|d IH|d IH|d IH|d IH|d IH|d IH|d IH|d IH];
    intros acc; [reflexivity|..];
    cbn [NilEmpty.string_of_uint int_from Nat.of_uint_acc];
    rewrite <- IH; f_equal; rewrite Nat.tail_mul_spec;
    unfold digit_value; rewrite ?Nat2Z.inj_succ, Nat2Z.inj_mul;
    match goal with
    | |- context [nat_of_ascii ?c] =>
        let v := eval vm_compute in (nat_of_ascii c) in
        change (nat_of_ascii c) with v
    end; lia.
Qed.




(** *** The float64 operations on short arrays *)







(** The examples of the specification, and a number that float64 cannot
    hold. *)
Lemma parse_salary_examples :
  parse_salary (Some "$40K-$60K") = Some (float64_of_int 50)
  /\ parse_salary (Some "$45K (Employer est.)") = Some (float64_of_int 45)
  /\ parse_salary (Some "Unknown") = None
  /\ Re.findall_digits "$40K-$60K" = ["40"; "60"]
  /\ parse_salary (Some "9007199254740993") = Some (float64_of_int (2 ^ 53)).
Proof. repeat split; vm_compute; reflexivity. Qed.


(** ** Sentinels *)

Lemma replace_minus_one_sentinel (new : value) :
  replace_minus_one new (VInt (-1)) = new.
Proof. reflexivity. Qed.

Lemma replace_minus_one_bool (new : value) (b : bool) :
  replace_minus_one new (VBool b) = VBool b.
Proof. reflexivity. Qed.

(** C4.  The loader turns the sentinel [-1] of [easy_apply] into [False] and
    keeps booleans, but it converts nothing else: the text cells ["True"] and
    ["-1"], which is what a column mixing [True] and [-1] is read as, and the
    integer [1] come out as they went in, so the column is not boolean. *)
Theorem easy_apply_not_boolean :
  let raw v := mk_raw_row None None None None None None VNaN v None None in
  easy_apply (load_row (raw (VInt (-1)))) = VBool false
  /\ easy_apply (load_row (raw (VBool true))) = VBool true
  /\ easy_apply (load_row (raw (VStr "True"))) = VStr "True"
  /\ easy_apply (load_row (raw (VStr "-1"))) = VStr "-1"
  /\ easy_apply (load_row (raw (VInt 1))) = VInt 1
  /\ is_bool (easy_apply (load_row (raw (VStr "True")))) = false.
Proof. repeat split. Qed.

(** ** Filtering *)

Lemma filter_filter {A : Type} (f g : A -> bool) (l : list A) :
  filter g (filter f l) = filter (fun x => f x && g x) l.
Proof.
  induction l as [|x l IH]; simpl; [reflexivity|].
  destruct (f x); simpl; [destruct (g x)|]; now rewrite IH.
Qed.

Lemma filter_all {A : Type} (l : list A) : filter (fun _ => true) l = l.
Proof. induction l as [|x l IH]; simpl; congruence. Qed.

Lemma filter_Sublist {A : Type} (f : A -> bool) (l : list A) :
  Sublist (filter f l) l.
Proof.
  induction l as [|x l IH]; simpl; [constructor|].
  destruct (f x); now constructor.
Qed.

Lemma isin_In (selected : list string) (cell : option string) :
  isin selected cell = true <-> exists s, cell = Some s /\ In s selected.
Proof.
  destruct cell as [s|]; simpl.
  - rewrite existsb_exists. split.
    + intros (x & Hx & E). apply String.eqb_eq in E. subst. eauto.
    + intros (x & [= <-] & Hx). exists s. split; [exact Hx | apply String.eqb_refl].
  - split; [discriminate | intros (s & E & _); discriminate].
Qed.

Lemma facet_ok_In (selected : list string) (cell : option string) :
  facet_ok selected cell = true <->
  (selected <> [] -> exists s, cell = Some s /\ In s selected).
Proof.
  unfold facet_ok. destruct selected as [|v vs].
  - simpl. split; [congruence | reflexivity].
  - change (truthy (v :: vs)) with true. simpl negb. rewrite orb_false_l, isin_In.
    split; [intros H _; exact H | intros H; apply H; discriminate].
Qed.

Lemma filtered_df_facets_ok (df : DataFrame) (w : Sidebar.selection) :
  filtered_df df w = filter (facets_ok w) df.
Proof.
  unfold filtered_df, facets_ok, facet_ok.
  destruct (truthy (Sidebar.location w)), (truthy (Sidebar.industry w)),
    (truthy (Sidebar.ownership w)); simpl;
    rewrite ?filter_filter; try (symmetry; apply filter_all);
    apply filter_ext; intros r; simpl;
    rewrite ?andb_true_r, ?andb_assoc; reflexivity.
Qed.

(** C2.  The filtered frame is the rows of the loaded frame that meet all
    three facet constraints, in their order and unchanged: a row is kept
    exactly when it is a row of the frame and, for each facet with a
    selection, its cell is one of the selected values; the result is a
    sublist of the frame; with nothing selected it is the frame itself. *)
Theorem filtered_df_is_subset (df : DataFrame) (w : Sidebar.selection) :
  (forall r : row,
     In r (filtered_df df w) <->
     In r df
     /\ (Sidebar.location w <> [] ->
         exists s, location r = Some s /\ In s (Sidebar.location w))
     /\ (Sidebar.industry w <> [] ->
         exists s, industry r = Some s /\ In s (Sidebar.industry w))
     /\ (Sidebar.ownership w <> [] ->
         exists s, type_of_ownership r = Some s /\ In s (Sidebar.ownership w)))
  /\ Sublist (filtered_df df w) df
  /\ (Sidebar.location w = [] -> Sidebar.industry w = [] -> Sidebar.ownership w = [] ->
      filtered_df df w = df).
Proof.
  split; [|split].
  - intros r. rewrite filtered_df_facets_ok, filter_In. unfold facets_ok.
    rewrite !andb_true_iff, !facet_ok_In. tauto.
  - rewrite filtered_df_facets_ok. apply filter_Sublist.
  - intros Hl Hi Ho. unfold filtered_df. now rewrite Hl, Hi, Ho.
Qed.

(** ** Counting *)

Section CountsProps.
Context {K : Type} (eqb : K -> K -> bool).
Hypothesis eqb_eq : forall a b : K, eqb a b = true <-> a = b.

Let keys (counts : list (K * nat)) : list K := map fst counts.

Lemma eqb_same (a : K) : eqb a a = true.
Proof. now apply eqb_eq. Qed.

Lemma eqb_diff (a b : K) : a <> b -> eqb a b = false.
Proof.
  intros Hab. destruct (eqb a b) eqn:E; [|reflexivity].
  apply eqb_eq in E. contradiction.
Qed.

Lemma count_of_incr_same (k : K) (counts : list (K * nat)) :
  count_of eqb k (incr eqb k counts) = S (count_of eqb k counts).
Proof.
  induction counts as [|[k' n] rest IH]; simpl.
  - now rewrite eqb_same.
  - destruct (eqb k k') eqn:E; simpl; rewrite E; [reflexivity | exact IH].
Qed.

Lemma count_of_incr_other (k k0 : K) (counts : list (K * nat)) :
  k0 <> k ->
  count_of eqb k0 (incr eqb k counts) = count_of eqb k0 counts.
Proof.
  intros Hne. induction counts as [|[k' n] rest IH]; simpl.
  - now rewrite eqb_diff.
  - destruct (eqb k k') eqn:E; simpl.
    + apply eqb_eq in E. subst k'. now rewrite eqb_diff.
    + now rewrite IH.
Qed.

Lemma total_incr (k : K) (counts : list (K * nat)) :
  total (incr eqb k counts) = S (total counts).
Proof.
  induction counts as [|[k' n] rest IH]; simpl; [reflexivity|].
  destruct (eqb k k'); simpl; [reflexivity | rewrite IH; lia].
Qed.

Lemma keys_incr (k k0 : K) (counts : list (K * nat)) :
  In k0 (keys (incr eqb k counts)) <-> k0 = k \/ In k0 (keys counts).
Proof.
  induction counts as [|[k' n] rest IH]; simpl.
  - intuition congruence.
  - destruct (eqb k k') eqn:E; simpl.
    + apply eqb_eq in E. subst k'. intuition congruence.
    + rewrite IH. intuition congruence.
Qed.

Lemma NoDup_keys_incr (k : K) (counts : list (K * nat)) :
  NoDup (keys counts) -> NoDup (keys (incr eqb k counts)).
Proof.
  induction counts as [|[k' n] rest IH]; simpl; intros Hnd.
  - constructor; [intros [] | constructor].
  - inversion Hnd as [|? ? Hnotin Hnd']; subst.
    destruct (eqb k k') eqn:E; simpl.
    + constructor; assumption.
    + constructor; [|now apply IH].
      intros Hin. apply keys_incr in Hin as [-> | Hin]; [|contradiction].
      rewrite eqb_same in E. discriminate.
Qed.

Lemma positive_incr (k : K) (counts : list (K * nat)) :
  Forall (fun p => 0 < snd p)%nat counts ->
  Forall (fun p => 0 < snd p)%nat (incr eqb k counts).
Proof.
  induction counts as [|[k' n] rest IH]; simpl; intros Hpos.
  - repeat constructor.
  - inversion Hpos as [|? ? Hn Hrest]; subst.
    destruct (eqb k k'); constructor; simpl in *; auto; lia.
Qed.

(** What the whole loop leaves in the table, for any starting table. *)
Lemma fold_incr_spec (col : list K) (counts : list (K * nat)) :
  let counts' := fold_left (fun c k => incr eqb k c) col counts in
  (forall k, count_of eqb k counts' = (count_of eqb k counts + occurrences eqb k col)%nat)
  /\ total counts' = (total counts + List.length col)%nat
  /\ (NoDup (keys counts) -> NoDup (keys counts'))
  /\ (Forall (fun p => 0 < snd p)%nat counts -> Forall (fun p => 0 < snd p)%nat counts').
Proof.
  revert counts. induction col as [|x col IH]; intros counts; simpl.
  - repeat split; auto; intros k; unfold occurrences; simpl; lia.
  - destruct (IH (incr eqb x counts)) as (Hc & Ht & Hn & Hp).
    split; [|split; [|split]].
    + intros k. rewrite Hc. unfold occurrences. simpl.
      destruct (eqb k x) eqn:E.
      * apply eqb_eq in E. subst x. rewrite count_of_incr_same. simpl. lia.
      * rewrite count_of_incr_other; [lia|].
        intros ->. rewrite eqb_same in E. discriminate.
    + rewrite Ht, total_incr. lia.
    + intros Hnd. apply Hn, NoDup_keys_incr, Hnd.
    + intros Hpos. apply Hp, positive_incr, Hpos.
Qed.

Lemma count_of_In (k : K) (n : nat) (counts : list (K * nat)) :
  NoDup (keys counts) -> In (k, n) counts -> count_of eqb k counts = n.
Proof.
  induction counts as [|[k' n'] rest IH]; simpl; intros Hnd Hin; [contradiction|].
  inversion Hnd as [|? ? Hnotin Hnd']; subst.
  destruct Hin as [[= -> ->] | Hin].
  - now rewrite eqb_same.
  - destruct (eqb k k') eqn:E.
    + apply eqb_eq in E. subst k'. exfalso. apply Hnotin.
      change k with (fst (k, n)). now apply in_map.
    + now apply IH.
Qed.

Lemma In_count_of (k : K) (counts : list (K * nat)) :
  (0 < count_of eqb k counts)%nat -> In (k, count_of eqb k counts) counts.
Proof.
  induction counts as [|[k' n'] rest IH]; simpl; intros Hpos; [lia|].
  destruct (eqb k k') eqn:E.
  - apply eqb_eq in E. subst k'. now left.
  - right. now apply IH.
Qed.

Lemma occurrences_pos (k : K) (col : list K) :
  (0 < occurrences eqb k col)%nat <-> In k col.
Proof.
  unfold occurrences. induction col as [|x col IH]; simpl; [split; [lia | tauto]|].
  destruct (eqb k x) eqn:E; simpl.
  - apply eqb_eq in E. subst x. split; [now left | lia].
  - rewrite IH. split; [now right|]. intros [-> | H]; [|exact H].
    rewrite eqb_same in E. discriminate.
Qed.

(** The table of counts of a column: one entry per distinct value, with
    the number of its occurrences; the counts add up to the column. *)
Lemma group_counts_spec (col : list K) :
  (forall k n, In (k, n) (group_counts eqb col) <->
               n = occurrences eqb k col /\ In k col)
  /\ NoDup (keys (group_counts eqb col))
  /\ total (group_counts eqb col) = List.length col.
Proof.
  unfold group_counts.
  destruct (fold_incr_spec col []) as (Hc & Ht & Hn & Hp). simpl in *.
  specialize (Hn (NoDup_nil _)). specialize (Hp (Forall_nil _)).
  split; [|split; assumption].
  intros k n. split.
  - intros Hin. pose proof (count_of_In _ _ _ Hn Hin) as E. rewrite Hc in E.
    rewrite Forall_forall in Hp. specialize (Hp _ Hin). simpl in Hp.
    split; [lia|]. apply occurrences_pos. lia.
  - intros [-> Hin]. apply occurrences_pos in Hin.
    rewrite <- (Hc k). apply In_count_of. rewrite Hc. exact Hin.
Qed.

End CountsProps.

Lemma option_string_eqb_eq (a b : option string) :
  option_eqb String.eqb a b = true <-> a = b.
Proof.
  destruct a as [x|], b as [y|]; simpl; try (split; congruence).
  rewrite String.eqb_eq. split; congruence.
Qed.

Lemma total_Permutation {K : Type} (l l' : list (K * nat)) :
  Permutation l l' -> total l = total l'.
Proof. induction 1; simpl; lia. Qed.

Lemma StronglySorted_app {A : Type} (R : A -> A -> Prop) (l1 l2 : list A) :
  StronglySorted R (l1 ++ l2) ->
  StronglySorted R l1 /\ forall a b, In a l1 -> In b l2 -> R a b.
Proof.
  induction l1 as [|x l1 IH]; simpl; intros Hs.
  - split; [constructor | intros a b []].
  - inversion Hs as [|? ? Hs' Hall]; subst. destruct (IH Hs') as [Hl1 Hcross].
    rewrite Forall_app in Hall. destruct Hall as [Hall1 Hall2].
    split; [now constructor|].
    intros a b [<- | Ha] Hb; [|now apply Hcross].
    rewrite Forall_forall in Hall2. now apply Hall2.
Qed.

Lemma In_filter_notna {A : Type} (x : option A) (col : list (option A)) :
  In x (filter notna col) <-> In x col /\ x <> None.
Proof.
  rewrite filter_In. destruct x; simpl; split; intros [H1 H2];
    split; congruence.
Qed.

Lemma occurrences_filter_notna (s : string) (col : list (option string)) :
  occurrences (option_eqb String.eqb) (Some s) (filter notna col)
  = occurrences (option_eqb String.eqb) (Some s) col.
Proof.
  unfold occurrences. induction col as [|[x|] col IH]; simpl; [reflexivity| |exact IH].
  destruct (String.eqb s x); simpl; now rewrite IH.
Qed.

(** ** The aggregations *)

Section DashboardProps.
Variable sort_values : forall K : Type, list (K * nat) -> list (K * nat).

(** What is assumed of the sort: it reorders its input and leaves the
    counts in descending order. *)
Hypothesis sort_values_perm :
  forall (K : Type) (l : list (K * nat)), Permutation l (sort_values K l).
Hypothesis sort_values_desc :
  forall (K : Type) (l : list (K * nat)), StronglySorted count_desc (sort_values K l).

Lemma value_counts_spec (col : list (option string)) :
  let vc := value_counts sort_values String.eqb col in
  (forall k n, In (k, n) vc <->
     exists s, k = Some s
               /\ n = occurrences (option_eqb String.eqb) (Some s) col
               /\ In (Some s) col)
  /\ NoDup (map fst vc)
  /\ total vc = List.length (filter notna col)
  /\ StronglySorted count_desc vc.
Proof.
  unfold value_counts.
  set (gc := group_counts (option_eqb String.eqb) (filter notna col)).
  destruct (group_counts_spec (option_eqb String.eqb) option_string_eqb_eq
              (filter notna col)) as (Hin & Hnd & Htot).
  fold gc in Hin, Hnd, Htot. pose proof (sort_values_perm _ gc) as Hperm.
  simpl. split; [|split; [|split]].
  - intros k n. split.
    + intros H. apply (Permutation_in _ (Permutation_sym Hperm)) in H.
      apply Hin in H as [-> Hk]. apply In_filter_notna in Hk as [Hk Hne].
      destruct k as [s|]; [|congruence]. exists s.
      now rewrite occurrences_filter_notna.
    + intros (s & -> & -> & Hs). apply (Permutation_in _ Hperm). apply Hin.
      rewrite occurrences_filter_notna. split; [reflexivity|].
      apply In_filter_notna. split; [exact Hs | discriminate].
  - apply (Permutation_NoDup (l := map fst gc)); [|exact Hnd].
    now apply Permutation_map.
  - rewrite <- Htot. symmetry. now apply total_Permutation.
  - apply sort_values_desc.
Qed.

Lemma head_value_counts_top10 (col : list (option string)) :
  top10_of col (head 10 (value_counts sort_values String.eqb col)).
Proof.
  destruct (value_counts_spec col) as (Hin & Hnd & _ & Hsorted).
  set (vc := value_counts sort_values String.eqb col) in *.
  unfold head. rewrite <- (firstn_skipn 10 vc) in Hsorted, Hnd.
  apply StronglySorted_app in Hsorted as [Hs Hcross].
  rewrite map_app in Hnd. apply NoDup_app_remove_r in Hnd.
  assert (Hsub : forall p, In p (firstn 10 vc) -> In p vc).
  { intros p Hp. rewrite <- (firstn_skipn 10 vc). apply in_or_app. now left. }
  unfold top10_of. split; [|split; [|split; [|split]]].
  - apply firstn_le_length.
  - exact Hs.
  - exact Hnd.
  - intros k n Hkn. apply Hsub, Hin in Hkn as (s & -> & -> & Hs').
    exists s. split; [reflexivity|]. split; [reflexivity|].
    apply (occurrences_pos _ option_string_eqb_eq). exact Hs'.
  - intros s Hcol Hout.
    set (n := occurrences (option_eqb String.eqb) (Some s) col).
    assert (Hv : In (Some s, n) vc) by (apply Hin; eauto).
    rewrite <- (firstn_skipn 10 vc) in Hv. apply in_app_or in Hv as [Hv | Hv].
    + exfalso. apply Hout. change (Some s) with (fst (Some s, n)). now apply in_map.
    + split.
      * rewrite length_firstn.
        destruct (Nat.le_gt_cases 10 (List.length vc)) as [Hge|Hlt]; [lia|].
        rewrite skipn_all2 in Hv by lia. contradiction.
      * intros p Hp. apply (Hcross p _ Hp Hv).
Qed.

(** C3, as the code has it.  The top-companies and top-job-titles tables
    hold the ten most frequent values (all of them when there are fewer),
    each with its number of rows, in descending order of count; a value
    left out occurs no more often than any value listed; the table is a
    function of the column alone.  No order is promised among equal
    counts. *)
Theorem top10_by_count_descending (fdf : DataFrame) :
  top10_of (map company_name fdf) (comp_df sort_values fdf)
  /\ top10_of (map job_title fdf) (title_df sort_values fdf)
  /\ (forall fdf' : DataFrame,
        map company_name fdf' = map company_name fdf ->
        comp_df sort_values fdf' = comp_df sort_values fdf)
  /\ (forall fdf' : DataFrame,
        map job_title fdf' = map job_title fdf ->
        title_df sort_values fdf' = title_df sort_values fdf).
Proof.
  unfold comp_df, title_df. split; [|split; [|split]].
  - apply head_value_counts_top10.
  - apply head_value_counts_top10.
  - intros fdf' E. now rewrite E.
  - intros fdf' E. now rewrite E.
Qed.

Lemma length_filter_map {A B : Type} (f : A -> B) (p : B -> bool) (l : list A) :
  List.length (filter p (map f l)) = List.length (filter (fun x => p (f x)) l).
Proof.
  induction l as [|x l IH]; simpl; [reflexivity|].
  destruct (p (f x)); simpl; now rewrite IH.
Qed.

Lemma length_filter_negb {A : Type} (p : A -> bool) (l : list A) :
  (List.length (filter p l) + List.length (filter (fun x => negb (p x)) l)
   = List.length l)%nat.
Proof.
  induction l as [|x l IH]; simpl; [reflexivity|].
  destruct (p x); simpl; lia.
Qed.

(** C10.  The counts by location leave out the rows without a location:
    the counts add up to the number of rows that have one, so together
    with the rows that have none they make the total; no entry stands for
    the missing location, and each location present has one entry with
    its number of rows. *)
Theorem loc_df_excludes_missing (fdf : DataFrame) :
  total (loc_df sort_values fdf)
  = List.length (filter (fun r => notna (location r)) fdf)
  /\ (total (loc_df sort_values fdf)
      + List.length (filter (fun r => negb (notna (location r))) fdf)
      = total_jobs fdf)%nat
  /\ ~ In None (map fst (loc_df sort_values fdf))
  /\ (forall k n,
        In (k, n) (loc_df sort_values fdf) <->
        exists s, k = Some s
                  /\ n = occurrences (option_eqb String.eqb) (Some s) (map location fdf)
                  /\ In (Some s) (map location fdf)).
Proof.
  unfold loc_df, total_jobs.
  destruct (value_counts_spec (map location fdf)) as (Hin & _ & Htot & _).
  rewrite length_filter_map in Htot.
  split; [exact Htot|]. split; [rewrite Htot; apply length_filter_negb|].
  split; [|exact Hin].
  intros Hnone. apply in_map_iff in Hnone as ([k n] & Hk & Hkn). simpl in Hk. subst k.
  apply Hin in Hkn as (s & Hs & _). discriminate.
Qed.

Lemma sort_values_nil (K : Type) : sort_values K [] = [].
Proof. apply Permutation_nil, sort_values_perm. Qed.

(** C6.  When the selection leaves no row, the page shows zero jobs, zero
    companies, zero locations and a missing average rating, and every
    chart gets an empty table; the page is produced all the same. *)
Theorem empty_filter_degrades (df : DataFrame) (w : Sidebar.selection) :
  filtered_df df w = [] ->
  render sort_values (filtered_df df w) = empty_page.
Proof.
  intros ->. unfold render, empty_page, loc_df, comp_df, title_df, easy_df,
    value_counts, head. simpl. rewrite !sort_values_nil. reflexivity.
Qed.

Lemma filter_idempotent {A : Type} (f : A -> bool) (l : list A) :
  filter f (filter f l) = filter f l.
Proof.
  rewrite filter_filter. apply filter_ext. intros x. now destruct (f x).
Qed.

(** C7.  With nothing selected the filter returns the loaded frame, and so
    does filtering its result again; for any selection, filtering a second
    time changes nothing, and the page computed from the frame filtered
    once or twice is the same. *)
Theorem filter_none_identity (df : DataFrame) (w : Sidebar.selection) :
  filtered_df df Sidebar.none = df
  /\ filtered_df (filtered_df df Sidebar.none) Sidebar.none = df
  /\ filtered_df (filtered_df df w) w = filtered_df df w
  /\ render sort_values (filtered_df (filtered_df df w) w)
     = render sort_values (filtered_df df w).
Proof.
  assert (Hidem : filtered_df (filtered_df df w) w = filtered_df df w)
    by (rewrite !filtered_df_facets_ok; apply filter_idempotent).
  repeat split; try reflexivity; try exact Hidem. now rewrite Hidem.
Qed.

End DashboardProps.

(** ** Industry and sector *)

Lemma px_pie_breakdown (col : list (option string)) : breakdown_of col (px_pie col).
Proof.
  unfold px_pie, breakdown_of.
  destruct (group_counts_spec (option_eqb String.eqb) option_string_eqb_eq col)
    as (Hin & Hnd & Htot).
  split; [exact Hin|]. split; [exact Hnd|]. split; [exact Htot|].
  intros Hnone. split.
  - apply Hin. split; [reflexivity | exact Hnone].
  - apply (occurrences_pos _ option_string_eqb_eq). exact Hnone.
Qed.

(** C8.  On a frame where some row has an industry (resp. a sector), the
    breakdown groups the rows by that field and counts them, and the rows
    without a value are kept as a group of their own: every row is in
    exactly one slice. *)
Theorem breakdown_keeps_missing_category (fdf : DataFrame) :
  ((exists r, In r fdf /\ industry r <> None) ->
   breakdown_of (map industry fdf) (fig_ind fdf)
   /\ total (fig_ind fdf) = total_jobs fdf)
  /\ ((exists r, In r fdf /\ sector r <> None) ->
      breakdown_of (map sector fdf) (fig_sec fdf)
      /\ total (fig_sec fdf) = total_jobs fdf).
Proof.
  unfold fig_ind, fig_sec, total_jobs. split; intros _; (split; [apply px_pie_breakdown|]).
  - destruct (px_pie_breakdown (map industry fdf)) as (_ & _ & Htot & _).
    now rewrite Htot, length_map.
  - destruct (px_pie_breakdown (map sector fdf)) as (_ & _ & Htot & _).
    now rewrite Htot, length_map.
Qed.

(** ** The average rating *)

Lemma In_dropna {A : Type} (x : A) (col : list (option A)) :
  In (Some x) col -> In x (dropna col).
Proof.
  induction col as [|[y|] col IH]; simpl; intros Hin; [contradiction| |].
  - destruct Hin as [[= ->] | Hin]; [now left | right; now apply IH].
  - destruct Hin as [Hin | Hin]; [discriminate | now apply IH].
Qed.



(** The roundings of the tie cases that tell binary64 from exact
    arithmetic, and the cases of [rint]. *)
Lemma round_examples :
  let f (n d : Z) := PrimFloat.div (float64_of_int n) (float64_of_int d) in
  round (Some (f 16055 1000)%Z) 2 = Some (f 1606 100)%Z
  /\ round (Some (f 2675 1000)%Z) 2 = Some (f 268 100)%Z
  /\ round (Some (f 41 10)%Z) 2 = Some (f 41 10)%Z
  /\ rint (f 5 2)%Z = float64_of_int 2
  /\ rint (f 7 2)%Z = float64_of_int 4
  /\ rint (f (-3) 10)%Z = PrimFloat.neg_zero
  /\ rint PrimFloat.nan = PrimFloat.nan.
Proof. repeat split. Qed.

(** ** The stable sort *)

Lemma insert_desc_perm {K : Type} (x : K * nat) (l : list (K * nat)) :
  Permutation (x :: l) (insert_desc x l).
Proof.
  induction l as [|y t IH]; simpl; [reflexivity|].
  destruct (snd y <=? snd x)%nat; [reflexivity|].
  rewrite perm_swap. now constructor.
Qed.

Lemma stable_sort_desc_perm (K : Type) (l : list (K * nat)) :
  Permutation l (stable_sort_desc K l).
Proof.
  induction l as [|x l IH]; simpl; [constructor|].
  rewrite <- insert_desc_perm. now constructor.
Qed.

Lemma insert_desc_sorted {K : Type} (x : K * nat) (l : list (K * nat)) :
  StronglySorted count_desc l -> StronglySorted count_desc (insert_desc x l).
Proof.
  induction l as [|y t IH]; simpl; intros Hs.
  - repeat constructor.
  - inversion Hs as [|? ? Ht Hall]; subst.
    destruct (snd y <=? snd x)%nat eqn:E.
    + apply Nat.leb_le in E. constructor; [exact Hs|].
      constructor; [exact E|].
      rewrite Forall_forall in *. intros z Hz. specialize (Hall z Hz).
      unfold count_desc in *. lia.
    + apply Nat.leb_gt in E. constructor; [now apply IH|].
      apply (Permutation_Forall (insert_desc_perm x t)).
      constructor; [unfold count_desc; lia | exact Hall].
Qed.

Lemma stable_sort_desc_sorted (K : Type) (l : list (K * nat)) :
  StronglySorted count_desc (stable_sort_desc K l).
Proof.
  induction l as [|x l IH]; simpl; [constructor | now apply insert_desc_sorted].
Qed.

(** ** The properties on the sample data *)

Lemma clean_company_name_truncates_witness :
  clean_company_name (Some ("Acme Corp" ++ String "010"%char "3.5")%string)
  = Some "Acme Corp"
  /\ clean_company_name (Some "Beta LLC") = Some "Beta LLC".
Proof.
  destruct clean_company_name_truncates as (_ & _ & Hcut & Hsame).
  split.
  - apply (Hcut "Acme Corp" "3.5").
    intros c Hc. simpl in Hc.
    repeat (destruct Hc as [<- | Hc]; [discriminate|]). contradiction.
  - apply (Hsame "Beta LLC").
    intros c Hc. simpl in Hc.
    repeat (destruct Hc as [<- | Hc]; [discriminate|]). contradiction.
Defined.

Lemma clean_company_name_example :
  clean_company_name (Some ("Acme Corp" ++ String Re.newline "3.5")%string)
  = Some "Acme Corp".
Proof. reflexivity. Qed.

Lemma filtered_df_is_subset_witness :
  filtered_df sample_df Sidebar.none = sample_df.
Proof.
  destruct (filtered_df_is_subset sample_df Sidebar.none) as (_ & _ & Hnone).
  apply Hnone; reflexivity.
Defined.

Lemma sample_filtered_by_NY :
  map company_name (filtered_df sample_df select_NY) = [Some "A"; Some "B"]
  /\ map easy_apply (filtered_df sample_df select_NY) = [VBool false; VBool true]
  /\ easy_df stable_sort_desc (filtered_df sample_df select_NY)
     = [(Some (VBool false), 1%nat); (Some (VBool true), 1%nat)].
Proof. repeat split. Qed.

Lemma top10_by_count_descending_witness :
  top10_of (map company_name sample_df) (comp_df stable_sort_desc sample_df).
Proof.
  apply (top10_by_count_descending stable_sort_desc
           stable_sort_desc_perm stable_sort_desc_sorted sample_df).
Defined.

(** C3, as the specification states it, fails.  Two companies with one row
    each come out in the order of their first row, ["B"] before ["A"], not in
    the order of their labels. *)
Lemma top10_ties_not_by_label :
  ~ StronglySorted count_desc_label_asc
      (comp_df stable_sort_desc [company_row "B"; company_row "A"]).
Proof.
  change (comp_df stable_sort_desc [company_row "B"; company_row "A"])
    with [(Some "B", 1%nat); (Some "A", 1%nat)].
  intros Hs. inversion Hs as [|? ? _ Hall]; subst.
  inversion Hall as [|? ? Hhead _]; subst.
  destruct Hhead as [Hlt | [_ Hle]]; simpl in *; [lia | discriminate].
Qed.

Lemma top10_ties_first_row_order :
  comp_df stable_sort_desc [company_row "B"; company_row "A"]
  = [(Some "B", 1%nat); (Some "A", 1%nat)].
Proof. reflexivity. Qed.

Lemma loc_df_excludes_missing_witness :
  total (loc_df stable_sort_desc sample_df)
  = List.length (filter (fun r => notna (location r)) sample_df).
Proof.
  apply (loc_df_excludes_missing stable_sort_desc
           stable_sort_desc_perm stable_sort_desc_sorted sample_df).
Defined.

Lemma empty_filter_degrades_witness :
  render stable_sort_desc (filtered_df sample_df select_NY_Retail) = empty_page.
Proof.
  apply (empty_filter_degrades stable_sort_desc stable_sort_desc_perm
           sample_df select_NY_Retail).
  reflexivity.
Defined.

Lemma breakdown_keeps_missing_category_witness :
  breakdown_of (map industry sample_df) (fig_ind sample_df)
  /\ total (fig_ind sample_df) = total_jobs sample_df.
Proof.
  apply (breakdown_keeps_missing_category sample_df).
  exists (load_row (nth 0 sample_csv (mk_raw_row None None None None None None VNaN VNaN None None))).
  split; [simpl; auto | discriminate].
Defined.

Lemma sample_industry_breakdown :
  fig_ind sample_df = [(Some "Finance", 1%nat); (None, 1%nat); (Some "Tech", 1%nat)].
Proof. reflexivity. Qed.


(** * Further properties of the script *)

(** ** Column names *)
















(** ** Company names *)

Lemma before_newline_append (name suffix : string) :
  Re.has_newline name = false ->
  Re.before_newline (name ++ String Re.newline suffix) = name.
Proof.
  induction name as [|c t IH]; simpl.
  - intros _. reflexivity.
  - intros H. apply orb_false_iff in H as [Hc Ht]. rewrite Hc. f_equal. now apply IH.
Qed.

Lemma before_newline_length (s : string) :
  (String.length (Re.before_newline s) <= String.length s)%nat.
Proof.
  induction s as [|c t IH]; simpl; [lia|].
  destruct (Re.is_newline c); simpl; lia.
Qed.

(** X2.  Cleaning a company name undoes the rating suffix: a name without a
    newline, followed by a newline and anything, cleans to the name, so any
    two suffixes give the same company.  Cleaning a cleaned name changes
    nothing and cleaning never lengthens a name. *)
Theorem clean_company_name_drops_suffix (name suffix : string) :
  Re.has_newline name = false ->
  clean_company_name (Some (name ++ String Re.newline suffix)%string) = Some name
  /\ (forall c : option string,
        clean_company_name (clean_company_name c) = clean_company_name c)
  /\ (forall s : string,
        (String.length (Re.sub_newline_rest s) <= String.length s)%nat).
Proof.
  intros Hname. split; [|split].
  - simpl. now rewrite sub_newline_rest_before, before_newline_append.
  - intros [s|]; simpl; [|reflexivity]. f_equal.
    rewrite !sub_newline_rest_before.
    apply before_newline_id, before_newline_clean.
  - intros s. rewrite sub_newline_rest_before. apply before_newline_length.
Qed.

(** ** Salary text *)

Lemma digit_value_range (c : ascii) :
  Re.is_digit c = true -> (0 <= digit_value c <= 9)%Z.
Proof.
  unfold Re.is_digit, digit_value. intros H.
  apply andb_true_iff in H as [H1 H2].
  apply Nat.leb_le in H1, H2. lia.
Qed.

Lemma int_from_nonneg (r : string) (acc : Z) :
  Re.all_digits r = true -> (0 <= acc)%Z -> (0 <= int_from acc r)%Z.
Proof.
  revert acc. induction r as [|c t IH]; intros acc Hr Hacc; [exact Hacc|].
  simpl in Hr. cbn [int_from].
  apply andb_true_iff in Hr as [Hc Ht]. apply IH; [exact Ht|].
  pose proof (digit_value_range c Hc). lia.
Qed.

Lemma no_digit_chars (sep : string) :
  (forall c, In c (list_ascii_of_string sep) ->
             (nat_of_ascii c < 48 \/ 57 < nat_of_ascii c)%nat) ->
  Re.no_digit sep = true.
Proof.
  induction sep as [|c t IH]; simpl; intros H; [reflexivity|].
  rewrite IH by (intros d Hd; apply H; now right).
  rewrite andb_true_r. unfold Re.is_digit.
  destruct (H c (or_introl eq_refl)) as [Hlo | Hhi].
  - destruct (Nat.leb_spec 48 (nat_of_ascii c)); [lia | reflexivity].
  - destruct (Nat.leb_spec (nat_of_ascii c) 57); [lia|]. now rewrite andb_false_r.
Qed.

(** X3.  Text without a digit in front of a salary text is never read: it
    leaves the parsed salary unchanged, so a minus sign or a currency sign
    changes nothing; and every integer read from a text is a natural
    number. *)
Theorem parse_salary_ignores_sign (sep s : string) :
  (forall c, In c (list_ascii_of_string sep) ->
             (nat_of_ascii c < 48 \/ 57 < nat_of_ascii c)%nat) ->
  parse_salary (Some (sep ++ s)%string) = parse_salary (Some s)
  /\ Forall (fun z => 0 <= z)%Z (map int (Re.findall_digits s))
  /\ Forall (fun z => 0 <= z)%Z (map int (Re.findall_digits (sep ++ s))).
Proof.
  intros Hsep. apply no_digit_chars in Hsep.
  assert (Hnonneg : forall t, Forall (fun z => 0 <= z)%Z (map int (Re.findall_digits t))).
  { intros t. apply Forall_map.
    pose proof (runs_all_digits _ _ (findall_digits_runs t)) as Hdigits.
    apply (Forall_impl _ (P := fun r => Re.all_digits r = true /\ r <> EmptyString));
      [|exact Hdigits].
    intros r [Hr _]. apply int_from_nonneg; [exact Hr | lia]. }
  split; [|split; apply Hnonneg].
  unfold parse_salary. now rewrite findall_digits_separator.
Qed.

(** X4.  [int] reads a decimal numeral as the number it denotes, leading
    zeros included; in particular it reads back the numeral of any natural
    number. *)
Theorem int_reads_decimal :
  (forall d : Decimal.uint, int (NilEmpty.string_of_uint d) = Z.of_nat (Nat.of_uint d))
  /\ (forall n : nat, int (NilEmpty.string_of_uint (Nat.to_uint n)) = Z.of_nat n).
Proof.
  assert (H : forall d, int (NilEmpty.string_of_uint d) = Z.of_nat (Nat.of_uint d))
    by (intros d; apply (int_from_of_uint d O)).
  split; [exact H|]. intros n. now rewrite H, DecimalNat.Unsigned.of_to.
Qed.

Lemma findall_digits_none (s : string) :
  Re.findall_digits s = [] <-> Re.no_digit s = true.
Proof.
  induction s as [|c t IH]; simpl; [split; reflexivity|].
  destruct (Re.is_digit c) eqn:Hc; simpl.
  - rewrite findall_digits_match by exact Hc. split; discriminate.
  - rewrite findall_digits_skip by exact Hc. exact IH.
Qed.

Lemma parse_salary_has_digit (cell : option string) :
  notna (parse_salary cell) = has_digit cell.
Proof.
  destruct cell as [s|]; simpl; [|reflexivity].
  destruct (Re.no_digit s) eqn:E.
  - apply findall_digits_none in E. now rewrite E.
  - destruct (Re.findall_digits s) eqn:F; [|reflexivity].
    apply findall_digits_none in F. congruence.
Qed.

Lemma filtered_df_In (df : DataFrame) (w : Sidebar.selection) (r : row) :
  In r (filtered_df df w) -> In r df.
Proof. rewrite filtered_df_facets_ok, filter_In. tauto. Qed.

Lemma dropna_filter_notna {A : Type} (col : list (option A)) :
  map Some (dropna col) = filter notna col.
Proof.
  induction col as [|[x|] col IH]; simpl; [reflexivity | now rewrite IH | exact IH].
Qed.

(** X5.  Whatever the selection, the salary histogram gets one value per
    row whose salary text holds a digit, in row order and none missing: the
    rows kept for it are exactly those rows, and together with the rows
    whose salary text is missing or digit-free they make up all the rows. *)
Theorem salary_histogram_rows (csv : list raw_row) (w : Sidebar.selection) :
  let fdf := filtered_df (load_data csv) w in
  salary_df fdf = filter (fun r => has_digit (salary_estimate r)) fdf
  /\ map Some (fig_salary fdf) = map avg_salary_k (salary_df fdf)
  /\ List.length (fig_salary fdf) = List.length (salary_df fdf)
  /\ (List.length (salary_df fdf)
      + List.length (filter (fun r => negb (has_digit (salary_estimate r))) fdf)
      = total_jobs fdf)%nat.
Proof.
  intros fdf.
  assert (Hsal : salary_df fdf = filter (fun r => has_digit (salary_estimate r)) fdf).
  { unfold salary_df. apply filter_ext_in. intros r Hr.
    apply filtered_df_In in Hr. unfold load_data in Hr.
    apply in_map_iff in Hr as (raw & <- & _). simpl. apply parse_salary_has_digit. }
  assert (Hmap : map Some (fig_salary fdf) = map avg_salary_k (salary_df fdf)).
  { unfold fig_salary. rewrite dropna_filter_notna.
    unfold salary_df. clear Hsal. induction fdf as [|r l IH]; simpl; [reflexivity|].
    destruct (notna (avg_salary_k r)) eqn:E; simpl; [rewrite E; f_equal; exact IH | exact IH]. }
  split; [exact Hsal|]. split; [exact Hmap|]. split.
  - rewrite <- (length_map Some), Hmap. apply length_map.
  - rewrite Hsal. unfold total_jobs. apply length_filter_negb.
Qed.

(** ** Sentinels of the loader *)

(** X6.  After loading, no [founded] cell is the sentinel: it is neither the
    integer [-1] nor a float equal to [-1], it is missing exactly when the
    raw cell was missing or the sentinel, and every other raw cell is kept
    as it was. *)
Theorem founded_sentinel_removed (raw : raw_row) :
  founded (load_row raw) <> VInt (-1)
  /\ (forall q : Q, founded (load_row raw) = VFloat q -> ~ q == inject_Z (-1))
  /\ (founded (load_row raw) = VNaN <->
      raw_founded raw = VNaN \/ raw_founded raw = VInt (-1)
      \/ exists q, raw_founded raw = VFloat q /\ q == inject_Z (-1))
  /\ (founded (load_row raw) <> VNaN -> founded (load_row raw) = raw_founded raw).
Proof.
  simpl. destruct (raw_founded raw) as [|b|z|q|s]; simpl.
  - split; [discriminate|]. split; [discriminate|]. split; [|reflexivity].
    split; [now left | reflexivity].
  - split; [discriminate|]. split; [discriminate|]. split; [|reflexivity].
    split; [discriminate | intros [H | [H | (q & H & _)]]; discriminate].
  - destruct (Z.eqb_spec z (-1)) as [-> | Hz].
    + split; [discriminate|]. split; [discriminate|]. split; [|congruence].
      split; [intros _; right; now left | reflexivity].
    + split; [congruence|]. split; [discriminate|]. split; [|reflexivity].
      split; [discriminate | intros [H | [H | (q & H & _)]]; congruence].
  - destruct (Qeq_bool q (inject_Z (-1))) eqn:E.
    + apply Qeq_bool_iff in E.
      split; [discriminate|]. split; [discriminate|]. split; [|congruence].
      split; [intros _; right; right; now exists q | reflexivity].
    + apply Qeq_bool_neq in E.
      split; [discriminate|]. split; [intros q' [= <-]; exact E|].
      split; [|reflexivity].
      split; [discriminate|].
      intros [H | [H | (q' & [= <-] & H)]]; try discriminate. contradiction.
  - split; [discriminate|]. split; [discriminate|]. split; [|reflexivity].
    split; [discriminate | intros [H | [H | (q & H & _)]]; discriminate].
Qed.

(** ** Counting, continued *)

Lemma incr_map {A B : Type} (eqa : A -> A -> bool) (eqb : B -> B -> bool) (f : A -> B) :
  (forall a b, eqb (f a) (f b) = eqa a b) ->
  forall k counts,
    incr eqb (f k) (map (fun p => (f (fst p), snd p)) counts)
    = map (fun p => (f (fst p), snd p)) (incr eqa k counts).
Proof.
  intros Hf k counts. induction counts as [|[k' n] rest IH]; simpl; [reflexivity|].
  rewrite Hf. destruct (eqa k k'); simpl; [reflexivity | now rewrite IH].
Qed.

Lemma group_counts_map {A B : Type} (eqa : A -> A -> bool) (eqb : B -> B -> bool)
    (f : A -> B) (col : list A) :
  (forall a b, eqb (f a) (f b) = eqa a b) ->
  group_counts eqb (map f col)
  = map (fun p => (f (fst p), snd p)) (group_counts eqa col).
Proof.
  intros Hf. unfold group_counts.
  change (@nil (B * nat)) with (map (fun p : A * nat => (f (fst p), snd p)) []).
  generalize (@nil (A * nat)) as counts.
  induction col as [|x col IH]; intros counts; simpl; [reflexivity|].
  rewrite (incr_map eqa eqb f Hf). apply IH.
Qed.

Lemma length_incr {K : Type} (eqb : K -> K -> bool) (k : K) (counts : list (K * nat)) :
  (List.length (incr eqb k counts) <= S (List.length counts))%nat.
Proof.
  induction counts as [|[k' n] rest IH]; simpl; [lia|].
  destruct (eqb k k'); simpl; lia.
Qed.

Lemma length_group_counts {K : Type} (eqb : K -> K -> bool) (col : list K) :
  (List.length (group_counts eqb col) <= List.length col)%nat.
Proof.
  unfold group_counts.
  assert (H : forall counts,
             (List.length (fold_left (fun c k => incr eqb k c) col counts)
              <= List.length counts + List.length col)%nat).
  { induction col as [|x col IH]; intros counts; simpl; [lia|].
    specialize (IH (incr eqb x counts)). pose proof (length_incr eqb x counts). lia. }
  apply (H []).
Qed.

Lemma length_dropna {A : Type} (col : list (option A)) :
  (List.length (dropna col) <= List.length col)%nat.
Proof. induction col as [|[x|] col IH]; simpl; lia. Qed.

Lemma total_map_key {A B : Type} (f : A -> B) (counts : list (A * nat)) :
  total (map (fun p => (f (fst p), snd p)) counts) = total counts.
Proof. induction counts as [|[k n] rest IH]; simpl; [reflexivity | now rewrite IH]. Qed.

Lemma NoDup_bool_length (l : list bool) : NoDup l -> (List.length l <= 2)%nat.
Proof.
  intros Hnd. apply (NoDup_incl_length (l' := [true; false]) Hnd).
  intros [|] _; simpl; auto.
Qed.

(** ** Metrics and charts together *)

Section ChartProps.
Variable sort_values : forall K : Type, list (K * nat) -> list (K * nat).
Hypothesis sort_values_perm :
  forall (K : Type) (l : list (K * nat)), Permutation l (sort_values K l).

Lemma length_value_counts (col : list (option string)) :
  List.length (value_counts sort_values String.eqb col) = nunique String.eqb col.
Proof.
  unfold value_counts, nunique.
  rewrite <- (Permutation_length (sort_values_perm _ _)).
  rewrite <- dropna_filter_notna.
  rewrite (group_counts_map String.eqb (option_eqb String.eqb) Some)
    by reflexivity.
  apply length_map.
Qed.

(** X7.  The charts agree with the metrics: the locations chart has as many
    bars as the Locations metric says, the companies chart has as many as the
    Companies metric up to ten, and neither metric exceeds the number of
    jobs. *)
Theorem charts_match_metrics (fdf : DataFrame) :
  List.length (loc_df sort_values fdf) = locations fdf
  /\ List.length (comp_df sort_values fdf) = Nat.min 10 (companies fdf)
  /\ (companies fdf <= total_jobs fdf)%nat
  /\ (locations fdf <= total_jobs fdf)%nat.
Proof.
  unfold loc_df, comp_df, head, locations, companies, total_jobs.
  split; [apply length_value_counts|].
  split; [rewrite length_firstn; now rewrite length_value_counts|].
  unfold nunique. split.
  - pose proof (length_group_counts String.eqb (dropna (map company_name fdf))).
    pose proof (length_dropna (map company_name fdf)).
    rewrite length_map in *. lia.
  - pose proof (length_group_counts String.eqb (dropna (map location fdf))).
    pose proof (length_dropna (map location fdf)).
    rewrite length_map in *. lia.
Qed.

Lemma bool_cell_eqb (a b : bool) :
  option_eqb value_eqb (Some (VBool a)) (Some (VBool b)) = Bool.eqb a b.
Proof. destruct a, b; reflexivity. Qed.

Lemma load_row_bool (raw : raw_row) :
  bool_or_sentinel (raw_easy_apply raw) = true ->
  is_bool (easy_apply (load_row raw)) = true.
Proof.
  simpl. destruct (raw_easy_apply raw) as [|b|z|q|s]; simpl; try discriminate.
  - reflexivity.
  - intros ->. reflexivity.
  - intros ->. reflexivity.
Qed.

(** X8.  When every raw [easy_apply] cell is a boolean or the sentinel [-1],
    then for any selection every cell of the filtered frame is a boolean and
    the easy-apply table has at most two groups, keyed by booleans, each
    with the number of rows holding that boolean; the counts add up to the
    number of jobs. *)
Theorem easy_df_two_groups (csv : list raw_row) (w : Sidebar.selection) :
  Forall (fun raw => bool_or_sentinel (raw_easy_apply raw) = true) csv ->
  let fdf := filtered_df (load_data csv) w in
  (forall r, In r fdf -> is_bool (easy_apply r) = true)
  /\ (List.length (easy_df sort_values fdf) <= 2)%nat
  /\ total (easy_df sort_values fdf) = total_jobs fdf
  /\ (forall k n, In (k, n) (easy_df sort_values fdf) ->
        exists b : bool,
          k = Some (VBool b)
          /\ n = List.length (filter (fun r => Bool.eqb b (as_bool (easy_apply r))) fdf)
          /\ (0 < n)%nat).
Proof.
  intros Hraw fdf.
  assert (Hbool : forall r, In r fdf -> is_bool (easy_apply r) = true).
  { intros r Hr. apply filtered_df_In in Hr. unfold load_data in Hr.
    apply in_map_iff in Hr as (raw & <- & Hin).
    rewrite Forall_forall in Hraw. apply load_row_bool, Hraw, Hin. }
  split; [exact Hbool|].
  set (bs := map (fun r => as_bool (easy_apply r)) fdf).
  pose (f := fun b : bool => Some (VBool b)).
  assert (Hcol : map (fun r => value_cell (easy_apply r)) fdf = map f bs).
  { unfold bs, f. rewrite map_map. apply map_ext_in. intros r Hr.
    specialize (Hbool r Hr). destruct (easy_apply r); try discriminate. reflexivity. }
  assert (Hnotna : forall l : list bool, filter notna (map f l) = map f l).
  { induction l as [|b l IH]; simpl; [reflexivity | now rewrite IH]. }
  assert (Heasy : Permutation
                    (map (fun p => (f (fst p), snd p)) (group_counts Bool.eqb bs))
                    (easy_df sort_values fdf)).
  { unfold easy_df, value_counts. rewrite Hcol, Hnotna.
    rewrite (group_counts_map Bool.eqb (option_eqb value_eqb) f)
      by apply bool_cell_eqb.
    apply sort_values_perm. }
  destruct (group_counts_spec Bool.eqb Bool.eqb_true_iff bs) as (Hin & Hnd & Htot).
  split; [|split].
  - rewrite <- (Permutation_length Heasy), length_map, <- (length_map fst).
    now apply NoDup_bool_length.
  - rewrite <- (total_Permutation _ _ Heasy), (total_map_key f), Htot.
    unfold bs, total_jobs. apply length_map.
  - intros k n Hkn. apply (Permutation_in _ (Permutation_sym Heasy)) in Hkn.
    apply in_map_iff in Hkn as ([b c] & [= <- <-] & Hbc). simpl.
    apply Hin in Hbc as [-> Hb]. exists b. split; [reflexivity|]. split.
    + unfold occurrences, bs. apply length_filter_map.
    + apply (occurrences_pos Bool.eqb Bool.eqb_true_iff). exact Hb.
Qed.

End ChartProps.

(** ** The options of the sidebar *)

Lemma unique_fold_spec (col seen : list string) :
  NoDup seen ->
  NoDup (fold_left (fun seen k => if existsb (String.eqb k) seen then seen else seen ++ [k])
           col seen)
  /\ forall x,
       In x (fold_left (fun seen k => if existsb (String.eqb k) seen then seen else seen ++ [k])
               col seen)
       <-> In x seen \/ In x col.
Proof.
  revert seen. induction col as [|k col IH]; intros seen Hnd; simpl.
  - split; [exact Hnd | intros x; tauto].
  - destruct (existsb (String.eqb k) seen) eqn:E.
    + destruct (IH seen Hnd) as [Hnd' Hin]. split; [exact Hnd'|].
      intros x. rewrite Hin. apply existsb_exists in E as (y & Hy & Ey).
      apply String.eqb_eq in Ey. subst y. intuition congruence.
    + assert (Hnotin : ~ In k seen).
      { intros Hk. assert (existsb (String.eqb k) seen = true)
          by (apply existsb_exists; exists k; split; [exact Hk | apply String.eqb_refl]).
        congruence. }
      assert (Hnd2 : NoDup (seen ++ [k])).
      { apply NoDup_app; [exact Hnd | repeat constructor; intros [] |].
        intros x Hx [<- | []]. contradiction. }
      destruct (IH (seen ++ [k]) Hnd2) as [Hnd' Hin]. split; [exact Hnd'|].
      intros x. rewrite Hin, in_app_iff. simpl. intuition congruence.
Qed.

Lemma insert_sorted_perm (x : string) (l : list string) :
  Permutation (x :: l) (insert_sorted x l).
Proof.
  induction l as [|y t IH]; simpl; [reflexivity|].
  destruct (String.leb x y); [reflexivity|].
  rewrite perm_swap. now constructor.
Qed.

Lemma sorted_perm (l : list string) : Permutation l (sorted l).
Proof.
  induction l as [|x l IH]; simpl; [constructor|].
  rewrite <- insert_sorted_perm. now constructor.
Qed.

Lemma insert_sorted_Sorted (x : string) (l : list string) :
  Sorted (fun a b => String.leb a b = true) l ->
  Sorted (fun a b => String.leb a b = true) (insert_sorted x l).
Proof.
  induction l as [|y t IH]; simpl; intros Hs.
  - repeat constructor.
  - destruct (String.leb x y) eqn:E.
    + constructor; [exact Hs | constructor; exact E].
    + apply Sorted_inv in Hs as [Ht Hhd]. constructor; [now apply IH|].
      assert (Hyx : String.leb y x = true)
        by (destruct (String.leb_total x y); congruence).
      destruct t as [|z t']; simpl; [constructor; exact Hyx|].
      destruct (String.leb x z); constructor; [exact Hyx|].
      now inversion Hhd.
Qed.

Lemma sorted_Sorted (l : list string) :
  Sorted (fun a b => String.leb a b = true) (sorted l).
Proof.
  induction l as [|x l IH]; simpl; [constructor | now apply insert_sorted_Sorted].
Qed.

Lemma In_dropna_iff {A : Type} (x : A) (col : list (option A)) :
  In x (dropna col) <-> In (Some x) col.
Proof.
  split; [|apply In_dropna].
  induction col as [|[y|] col IH]; simpl; [tauto| |].
  - intros [-> | H]; [now left | right; now apply IH].
  - intros H. right. now apply IH.
Qed.

Lemma options_spec (col : list (option string)) :
  Sorted (fun a b => String.leb a b = true) (options col)
  /\ NoDup (options col)
  /\ (forall s : string, In s (options col) <-> In (Some s) col).
Proof.
  unfold options, unique.
  destruct (unique_fold_spec (dropna col) [] (NoDup_nil _)) as [Hnd Hin].
  split; [apply sorted_Sorted|]. split.
  - apply (Permutation_NoDup (sorted_perm _) Hnd).
  - intros s. rewrite <- In_dropna_iff. split.
    + intros H. apply (Permutation_in _ (Permutation_sym (sorted_perm _))) in H.
      apply Hin in H as [[] | H]. exact H.
    + intros H. apply (Permutation_in _ (sorted_perm _)). apply Hin. now right.
Qed.

(** X9.  A multiselect offers exactly the values present in its column,
    each once, in ascending order; the three multiselects of the sidebar
    offer the locations, industries and ownership types of the loaded
    frame. *)
Theorem options_sorted_distinct (col : list (option string)) :
  Sorted (fun a b => String.leb a b = true) (options col)
  /\ NoDup (options col)
  /\ (forall s : string, In s (options col) <-> In (Some s) col).
Proof. apply options_spec. Qed.

(** ** Selections *)

Lemma facet_ok_nil (cell : option string) : facet_ok [] cell = true.
Proof. reflexivity. Qed.

Lemma options_In_row {f : row -> option string} (df : DataFrame) (s : string) :
  In s (options (map f df)) -> exists r, In r df /\ f r = Some s.
Proof.
  intros H. apply options_spec in H.
  apply in_map_iff in H as (r & Hr & Hin). eauto.
Qed.

(** X10.  A value picked in one multiselect, the two others left empty,
    always finds rows: the filtered frame holds a row with that value. *)
Theorem selected_option_has_rows (df : DataFrame) (w : Sidebar.selection) (s : string) :
  (Sidebar.industry w = [] -> Sidebar.ownership w = [] ->
   In s (Sidebar.location w) -> In s (options (map location df)) ->
   exists r, In r (filtered_df df w) /\ location r = Some s)
  /\ (Sidebar.location w = [] -> Sidebar.ownership w = [] ->
      In s (Sidebar.industry w) -> In s (options (map industry df)) ->
      exists r, In r (filtered_df df w) /\ industry r = Some s)
  /\ (Sidebar.location w = [] -> Sidebar.industry w = [] ->
      In s (Sidebar.ownership w) -> In s (options (map type_of_ownership df)) ->
      exists r, In r (filtered_df df w) /\ type_of_ownership r = Some s).
Proof.
  split; [|split]; intros H1 H2 Hsel Hopt;
    apply options_In_row in Hopt as (r & Hr & Hs);
    exists r; (split; [|exact Hs]);
    rewrite filtered_df_facets_ok; apply filter_In; (split; [exact Hr|]);
    unfold facets_ok; rewrite H1, H2, !facet_ok_nil, ?andb_true_r, ?andb_true_l;
    apply facet_ok_In; intros _; exists s; split; assumption.
Qed.

(** X11.  Selecting every location offered is not selecting none: it keeps
    exactly the rows that have a location.  Only when no row has a location
    (nothing is offered) does it keep the whole frame. *)
Theorem select_all_locations (df : DataFrame) :
  let w := Sidebar.mk_selection (options (map location df)) [] [] in
  ((exists r, In r df /\ location r <> None) ->
   filtered_df df w = filter (fun r => notna (location r)) df)
  /\ ((forall r, In r df -> location r = None) -> filtered_df df w = df).
Proof.
  intros w. destruct (options_spec (map location df)) as (_ & _ & Hopt).
  unfold filtered_df, w. simpl. split.
  - intros (r0 & Hr0 & Hloc0). destruct (location r0) as [s0|] eqn:E0; [|congruence].
    assert (Hs0 : In s0 (options (map location df))).
    { apply Hopt. rewrite <- E0. now apply in_map. }
    assert (Htruthy : truthy (options (map location df)) = true).
    { destruct (options (map location df)); [contradiction | reflexivity]. }
    rewrite Htruthy. apply filter_ext_in. intros r Hr.
    destruct (location r) as [s|] eqn:E; [|reflexivity].
    apply isin_In. exists s. split; [reflexivity|].
    apply Hopt. rewrite <- E. now apply in_map.
  - intros Hnone.
    assert (Hempty : options (map location df) = []).
    { destruct (options (map location df)) as [|o os]; [reflexivity|]. exfalso.
      assert (Ho : In (Some o) (map location df)) by (apply Hopt; now left).
      apply in_map_iff in Ho as (r & Hr & Hin).
      rewrite (Hnone r Hin) in Hr. discriminate. }
    now rewrite Hempty.
Qed.

Lemma filter_Sublist_implies {A : Type} (f g : A -> bool) (l : list A) :
  (forall x, In x l -> f x = true -> g x = true) ->
  Sublist (filter f l) (filter g l).
Proof.
  induction l as [|x l IH]; simpl; intros H; [constructor|].
  assert (IH' : Sublist (filter f l) (filter g l)) by (apply IH; intros y Hy; apply H; now right).
  destruct (f x) eqn:Ef.
  - rewrite (H x (or_introl eq_refl) Ef). now constructor.
  - destruct (g x); [now constructor | exact IH'].
Qed.

Lemma facet_ok_widens (a b : list string) (cell : option string) :
  widens a b -> facet_ok a cell = true -> facet_ok b cell = true.
Proof.
  intros [-> | [Hne Hincl]]; [reflexivity|].
  rewrite !facet_ok_In. intros H _. destruct (H Hne) as (s & Hs & Hin).
  exists s. split; [exact Hs | now apply Hincl].
Qed.

(** X12.  Filters compose and commute: filtering a filtered frame keeps the
    rows that meet both selections, in either order.  Widening a selection
    never loses a row: if each facet of a second selection is empty or
    contains the non-empty first one, the first result is a sublist of the
    second. *)
Theorem filtered_df_compose (df : DataFrame) (w1 w2 : Sidebar.selection) :
  filtered_df (filtered_df df w1) w2
  = filter (fun r => facets_ok w1 r && facets_ok w2 r) df
  /\ filtered_df (filtered_df df w1) w2 = filtered_df (filtered_df df w2) w1
  /\ (widens (Sidebar.location w1) (Sidebar.location w2) ->
      widens (Sidebar.industry w1) (Sidebar.industry w2) ->
      widens (Sidebar.ownership w1) (Sidebar.ownership w2) ->
      Sublist (filtered_df df w1) (filtered_df df w2)).
Proof.
  rewrite !filtered_df_facets_ok, !filter_filter. split; [reflexivity|]. split.
  - apply filter_ext. intros r. apply andb_comm.
  - intros Hl Hi Ho. apply filter_Sublist_implies. intros r _. unfold facets_ok.
    rewrite !andb_true_iff. intros [[H1 H2] H3].
    repeat split; eapply facet_ok_widens; eassumption.
Qed.

(** ** The further properties on the sample data *)

Lemma clean_company_name_drops_suffix_witness :
  clean_company_name (Some ("Acme Corp" ++ String Re.newline "3.5")%string)
  = Some "Acme Corp".
Proof.
  apply (clean_company_name_drops_suffix "Acme Corp" "3.5"). reflexivity.
Defined.

Lemma parse_salary_ignores_sign_witness :
  parse_salary (Some "-$40K") = parse_salary (Some "40K").
Proof.
  apply (parse_salary_ignores_sign "-$" "40K").
  intros c [<- | [<- | []]]; vm_compute; lia.
Defined.

Lemma founded_sentinel_removed_witness :
  let raw := mk_raw_row None None None None None None (VInt 1999) VNaN None None in
  founded (load_row raw) = raw_founded raw.
Proof.
  intros raw. apply (founded_sentinel_removed raw). discriminate.
Defined.

Lemma charts_match_metrics_witness :
  List.length (comp_df stable_sort_desc sample_df) = Nat.min 10 (companies sample_df).
Proof.
  apply (charts_match_metrics stable_sort_desc stable_sort_desc_perm sample_df).
Defined.

Lemma easy_df_two_groups_witness :
  (List.length (easy_df stable_sort_desc (filtered_df (load_data sample_csv) select_NY))
   <= 2)%nat.
Proof.
  apply (easy_df_two_groups stable_sort_desc stable_sort_desc_perm sample_csv select_NY).
  repeat constructor.
Defined.

Lemma options_sorted_distinct_witness :
  In "NY" (options (map location sample_df)).
Proof.
  apply (options_sorted_distinct (map location sample_df)). simpl. auto.
Defined.

Lemma sample_options : options (map location sample_df) = ["LA"; "NY"].
Proof. reflexivity. Qed.

Lemma selected_option_has_rows_witness :
  exists r, In r (filtered_df sample_df select_NY) /\ location r = Some "NY".
Proof.
  apply (proj1 (selected_option_has_rows sample_df select_NY "NY"));
    try reflexivity; vm_compute; auto.
Defined.

Lemma select_all_locations_witness :
  filtered_df sample_df (Sidebar.mk_selection (options (map location sample_df)) [] [])
  = filter (fun r => notna (location r)) sample_df.
Proof.
  apply (proj1 (select_all_locations sample_df)).
  exists (load_row (nth 0 sample_csv (mk_raw_row None None None None None None VNaN VNaN None None))).
  split; [simpl; auto | discriminate].
Defined.

Lemma filtered_df_compose_witness :
  Sublist (filtered_df sample_df select_NY_Retail) (filtered_df sample_df select_NY).
Proof.
  apply (filtered_df_compose sample_df select_NY_Retail select_NY).
  - right. split; [discriminate | apply incl_refl].
  - left. reflexivity.
  - left. reflexivity.
Defined.
